(** * Potato Doc: the upload / analysis component of [frontend/src/home.js]

    The React component [ImageUpload] is embedded as an explicit state
    machine.  Its six [useState] slots form the record [State]; the browser
    services it talks to (the object-URL registry behind
    [URL.createObjectURL], the table of HTTP requests still in flight) are
    kept next to it in [World].  Every handler of the component is a
    function on [World]; the [useEffect] bound to [[preview, selectedFile]]
    is run after a handler exactly when one of the two dependencies
    changed.  The part of [analyzeImage] after [await] is a separate event,
    [Settle], delivered when the transport produces its outcome.
    [handleUploadClick] only opens the file dialog and touches no state; the
    choice made in the dialog arrives as [FileChange]. *)

From Stdlib Require Import ZArith String List Lia.
From stdpp Require Import base option list gmap.
Import ListNotations.

Local Open Scope string_scope.

(** ** JavaScript values and completions *)

(** The values a parsed response body can take.  Numbers are never
    inspected by the component. *)
#[warnings="-register-all"]
Inductive jsval : Type :=
  | JUndefined
  | JNull
  | JBool (b : bool)
  | JNum (z : Z)
  | JStr (s : string)
  | JArr (items : list jsval)
  | JObj (props : list (string * jsval)).

Inductive exn : Type :=
  | TypeError
  | AxiosError (status : option Z).

(** A statement either completes normally or throws. *)
Inductive completion (A : Type) : Type :=
  | Normal (a : A)
  | Throw (e : exn).
Arguments Normal {A} a.
Arguments Throw {A} e.

Definition cbind {A B} (c : completion A) (k : A -> completion B) : completion B :=
  match c with
  | Normal a => k a
  | Throw e => Throw e
  end.

Notation "x <- c ;; k" := (cbind c (fun x => k))
  (at level 100, c at next level, right associativity).

Fixpoint prop_lookup (k : string) (props : list (string * jsval)) : option jsval :=
  match props with
  | [] => None
  | (k', v) :: rest => if String.eqb k k' then Some v else prop_lookup k rest
  end.

(** Member access [v.k] for a key [k] that no prototype defines (the
    component only reads [prediction]): reading from [null] or [undefined]
    throws, a missing property reads as [undefined]. *)
Definition member (v : jsval) (k : string) : completion jsval :=
  match v with
  | JUndefined | JNull => Throw TypeError
  | JObj props => Normal (default JUndefined (prop_lookup k props))
  | _ => Normal JUndefined
  end.

(** [v === s] for a string literal [s]. *)
Definition strict_eq_str (v : jsval) (s : string) : bool :=
  match v with
  | JStr s' => String.eqb s' s
  | _ => false
  end.

(** ** Files and object URLs *)

Record File : Type := mkFile {
  file_name : string;
  file_type : string;
  file_size : N
}.

Global Instance File_eq_dec : EqDecision File.
Proof. solve_decision. Defined.

(** [file.type.startsWith('image/')] *)
Definition is_image (f : File) : bool := String.prefix "image/" (file_type f).

(** An object URL is identified by the serial number the registry gave it. *)
Definition ObjectURL : Type := nat.

Module URL.

(** The browser's registry of object URLs. *)
Record registry : Type := mkRegistry {
  next_url : nat;
  live : gset nat;
  revoke_log : list nat
}.

Definition empty : registry :=
  {| next_url := 0; live := ∅; revoke_log := [] |}.

Definition createObjectURL (f : File) (r : registry) : ObjectURL * registry :=
  (next_url r,
   {| next_url := S (next_url r);
      live := {[ next_url r ]} ∪ live r;
      revoke_log := revoke_log r |}).

Definition revokeObjectURL (u : ObjectURL) (r : registry) : registry :=
  {| next_url := next_url r;
     live := live r ∖ {[ u ]};
     revoke_log := u :: revoke_log r |}.

End URL.

(** ** The transport (axios) *)

(** What the network eventually delivers for one request: no response at
    all (connection failure, timeout), or a reply with a status and a
    parsed body. *)
Inductive Transport : Type :=
  | NetworkFailure
  | Reply (status : Z) (data : jsval).

Record Response : Type := mkResponse {
  status : Z;
  data : jsval
}.

(** axios' default [validateStatus]. *)
Definition validateStatus (s : Z) : bool := ((200 <=? s) && (s <? 300))%Z.

(** [await axios({...})]: resolves for a 2xx reply, rejects otherwise. *)
Definition axios (t : Transport) : completion Response :=
  match t with
  | NetworkFailure => Throw (AxiosError None)
  | Reply s d =>
      if validateStatus s then Normal {| status := s; data := d |}
      else Throw (AxiosError (Some s))
  end.

(** ** Component state *)

Record Results : Type := mkResults {
  condition : jsval;
  confidence : Z
}.

Record State : Type := mkState {
  selectedFile : option File;
  preview : option ObjectURL;
  results : option Results;
  isAnalyzing : bool;
  error : option string;
  dragActive : bool
}.

Definition setSelectedFile (v : option File) (s : State) : State :=
  mkState v (preview s) (results s) (isAnalyzing s) (error s) (dragActive s).
Definition setPreview (v : option ObjectURL) (s : State) : State :=
  mkState (selectedFile s) v (results s) (isAnalyzing s) (error s) (dragActive s).
Definition setResults (v : option Results) (s : State) : State :=
  mkState (selectedFile s) (preview s) v (isAnalyzing s) (error s) (dragActive s).
Definition setIsAnalyzing (v : bool) (s : State) : State :=
  mkState (selectedFile s) (preview s) (results s) v (error s) (dragActive s).
Definition setError (v : option string) (s : State) : State :=
  mkState (selectedFile s) (preview s) (results s) (isAnalyzing s) v (dragActive s).
Definition setDragActive (v : bool) (s : State) : State :=
  mkState (selectedFile s) (preview s) (results s) (isAnalyzing s) (error s) v.

Definition initial_state : State :=
  mkState None None None false None false.

(** One call of [axios]: the file appended to the form data and the
    preview of the render whose effect issued the call. *)
Record Request : Type := mkRequest {
  req_file : option File;
  req_preview : ObjectURL
}.

Record World : Type := mkWorld {
  ui : State;
  urls : URL.registry;
  calls : list Request;
  pending : gmap nat Request
}.

Definition with_ui (f : State -> State) (w : World) : World :=
  mkWorld (f (ui w)) (urls w) (calls w) (pending w).

Definition init : World := mkWorld initial_state URL.empty [] ∅.

(** ** Handlers *)

Definition processSelectedFile (file : File) (w : World) : World :=
  let w1 := with_ui (setSelectedFile (Some file)) w in
  let w2 := with_ui (setError None) w1 in
  let w3 := with_ui (setResults None) w2 in
  let '(url, reg) := URL.createObjectURL file (urls w3) in
  mkWorld (setPreview (Some url) (ui w3)) reg (calls w3) (pending w3).

Definition handleFileChange (files : list File) (w : World) : World :=
  match files !! 0%nat with
  | Some file => if is_image file then processSelectedFile file w else w
  | None => w
  end.

Inductive DragKind : Type := DragEnter | DragOver | DragLeave.

(** [e.type] of the events bound to [onDragEnter], [onDragOver] and
    [onDragLeave]. *)
Definition event_type (k : DragKind) : string :=
  match k with
  | DragEnter => "dragenter"
  | DragOver => "dragover"
  | DragLeave => "dragleave"
  end.

Definition handleDrag (type : string) (w : World) : World :=
  if String.eqb type "dragenter" || String.eqb type "dragover" then
    with_ui (setDragActive true) w
  else if String.eqb type "dragleave" then
    with_ui (setDragActive false) w
  else w.

Definition handleDrop (files : list File) (w : World) : World :=
  let w1 := with_ui (setDragActive false) w in
  match files !! 0%nat with
  | Some file => if is_image file then processSelectedFile file w1 else w1
  | None => w1
  end.

Definition resetAnalysis (w : World) : World :=
  with_ui (fun s => setError None (setResults None (setPreview None (setSelectedFile None s)))) w.

(** ** [analyzeImage] *)

Definition failure_message : string :=
  "We couldn't analyze this image. Please try with another photo of a potato leaf.".

(** The part of [analyzeImage] that runs synchronously inside the effect,
    up to the [await]: two state updates and the call of [axios]. *)
Definition analyzeImage_start (p : ObjectURL) (w : World) : World :=
  let s := setError None (setIsAnalyzing true (ui w)) in
  let r := {| req_file := selectedFile (ui w); req_preview := p |} in
  mkWorld s (urls w) (calls w ++ [r]) (<[ length (calls w) := r ]> (pending w)).

(** The body of [try] after the [await].  Its only state update is the
    last thing it does, so a throw leaves the state as it was. *)
Definition try_block (t : Transport) (s : State) : completion State :=
  response <- axios t ;;
  if (status response =? 200)%Z then
    p <- member (data response) "prediction" ;;
    Normal (setResults (Some {| condition := p; confidence := 98 |}) s)
  else Normal s.

(** [try ... catch ... finally] once the awaited promise has settled. *)
Definition analyzeImage_resume (t : Transport) (s : State) : State :=
  let s1 :=
    match try_block t s with
    | Normal s' => s'
    | Throw _ => setError (Some failure_message) s
    end in
  setIsAnalyzing false s1.

(** The effect: [if (!preview) return; analyzeImage();] *)
Definition effect (w : World) : World :=
  match preview (ui w) with
  | None => w
  | Some p => analyzeImage_start p w
  end.

(** The dependency array [[preview, selectedFile]].  Object URLs are
    compared as values.  A handler that stores a file stores a preview in
    the same render, so comparing files by value here decides the same
    renders as comparing them by identity. *)
Definition deps_changed (old new : State) : bool :=
  negb (bool_decide (preview old = preview new /\ selectedFile old = selectedFile new)).

Definition after_render (old : State) (w : World) : World :=
  if deps_changed old (ui w) then effect w else w.

(** ** Events *)

Inductive Event : Type :=
  | FileChange (files : list File)
  | Drag (k : DragKind)
  | Drop (files : list File)
  | ResetClick
  | Settle (id : nat) (t : Transport).

Definition handle (ev : Event) (w : World) : World :=
  match ev with
  | FileChange files => handleFileChange files w
  | Drag k => handleDrag (event_type k) w
  | Drop files => handleDrop files w
  | ResetClick => resetAnalysis w
  | Settle id t =>
      match pending w !! id with
      | Some _ =>
          mkWorld (analyzeImage_resume t (ui w)) (urls w) (calls w)
                  (delete id (pending w))
      | None => w
      end
  end.

(** A handler runs, its state updates are applied together in one render,
    and the effect runs if one of its dependencies changed in that
    render. *)
Definition fire (ev : Event) (w : World) : World :=
  after_render (ui w) (handle ev w).

(** Which events the rendered page can deliver: the file input exists only
    while there is no preview, the two reset buttons only inside the error
    and result boxes, and a request settles only while it is in flight. *)
Definition enabled (ev : Event) (w : World) : bool :=
  match ev with
  | FileChange _ => bool_decide (preview (ui w) = None)
  | Drag _ | Drop _ => true
  | ResetClick => bool_decide (is_Some (results (ui w)) \/ is_Some (error (ui w)))
  | Settle id _ => bool_decide (is_Some (pending w !! id))
  end.

Definition step (w : World) (ev : Event) : option World :=
  if enabled ev w then Some (fire ev w) else None.

Fixpoint run (w : World) (tr : list Event) : option World :=
  match tr with
  | [] => Some w
  | ev :: tr' =>
      match step w ev with
      | Some w' => run w' tr'
      | None => None
      end
  end.

Definition Reachable (w : World) : Prop := exists tr, run init tr = Some w.

(** The first file of a selection, when the handlers' guards let it
    through: [file && file.type.startsWith('image/')]. *)
Definition accepted (files : list File) : option File :=
  match files !! 0%nat with
  | Some file => if is_image file then Some file else None
  | None => None
  end.

(** The file an event hands to [processSelectedFile], if any. *)
Definition selection (ev : Event) : option File :=
  match ev with
  | FileChange files | Drop files => accepted files
  | _ => None
  end.

(** ** Rendering *)

Definition getConditionClass (s : State) : string :=
  match results s with
  | None => ""
  | Some r => if strict_eq_str (condition r) "Healthy" then "healthy" else "disease"
  end.

Inductive Node : Type :=
  | Text (s : string)
  | Strong (v : jsval).

Record Details : Type := mkDetails {
  summary : list Node;
  advice_title : string;
  advice : list string
}.

Definition disease_details (c : jsval) : Details :=
  {| summary := [Text "This leaf shows signs of "; Strong c;
                 Text ". Early treatment is recommended."];
     advice_title := "Recommended Action";
     advice := ["Remove affected leaves to prevent spread";
                "Apply appropriate fungicide treatment";
                "Ensure proper air circulation between plants";
                "Avoid overhead watering to reduce moisture on leaves"] |}.

Definition healthy_details : Details :=
  {| summary := [Text "Good news! Your potato plant appears to be healthy. Continue with your current care routine."];
     advice_title := "Maintenance Tips";
     advice := ["Monitor regularly for early signs of disease";
                "Maintain good watering practices";
                "Ensure plants receive appropriate nutrients";
                "Practice crop rotation in future plantings"] |}.

(** [results.condition !== 'Healthy' ? (...) : (...)] *)
Definition result_details (r : Results) : Details :=
  if negb (strict_eq_str (condition r) "Healthy") then disease_details (condition r)
  else healthy_details.

Record ResultsPanel : Type := mkPanel {
  panel_class : string;
  panel_heading : jsval;
  panel_confidence : Z;
  panel_details : Details
}.

(** The conditional blocks of the returned markup.  Every value the
    component stores in [preview], [results] and [error] is truthy, so the
    [&&] guards test presence. *)
Record View : Type := mkView {
  upload_area_active : bool;
  upload_prompt : bool;
  analyzing_placeholder : bool;
  preview_image : option ObjectURL;
  analyzing_spinner : bool;
  error_message : option string;
  results_panel : option ResultsPanel
}.

Definition render (s : State) : View :=
  {| upload_area_active := dragActive s;
     upload_prompt := bool_decide (preview s = None);
     analyzing_placeholder :=
       bool_decide (is_Some (preview s)) && negb (isAnalyzing s)
       && bool_decide (results s = None) && bool_decide (error s = None);
     preview_image := preview s;
     analyzing_spinner := isAnalyzing s;
     error_message := error s;
     results_panel :=
       match results s with
       | Some r => Some (mkPanel (getConditionClass s) (condition r)
                                 (confidence r) (result_details r))
       | None => None
       end |}.

(** ** The derived interface states *)

Definition Idle (s : State) : Prop := preview s = None.
Definition Analyzing (s : State) : Prop := isAnalyzing s = true.
Definition Succeeded (s : State) : Prop := is_Some (results s).
Definition Failed (s : State) : Prop := is_Some (error s).

(** How many of the in-flight flag, the result and the error are on. *)
Definition active_count (s : State) : nat :=
  Nat.b2n (isAnalyzing s)
  + Nat.b2n (bool_decide (is_Some (results s)))
  + Nat.b2n (bool_decide (is_Some (error s))).

(** What one settled request writes into the result and error slots. *)
Definition writes (t : Transport) : option Results * option string :=
  match try_block t initial_state with
  | Normal s => (results s, None)
  | Throw _ => (None, Some failure_message)
  end.

(** [tr] run from [w] never hands a new file to the component while a
    request is still in flight. *)
Fixpoint overlap_free (w : World) (tr : list Event) : bool :=
  match tr with
  | [] => true
  | ev :: tr' =>
      negb (bool_decide (is_Some (selection ev)) && negb (bool_decide (pending w = ∅)))
      && overlap_free (fire ev w) tr'
  end.

(** Whether the awaited call ends in the [catch] block. *)
Definition fails (t : Transport) : bool :=
  match try_block t initial_state with
  | Normal _ => false
  | Throw _ => true
  end.

(** The world right after a file went through [processSelectedFile] and
    the effect that follows it. *)
Definition selected (f : File) (w : World) : World :=
  let u := URL.next_url (urls w) in
  let r := {| req_file := Some f; req_preview := u |} in
  mkWorld (mkState (Some f) (Some u) None true None (dragActive (ui w)))
          (snd (URL.createObjectURL f (urls w)))
          (calls w ++ [r])
          (<[ length (calls w) := r ]> (pending w)).

(** The preview in the state was handed out by the registry, so the next
    URL it creates differs from it. *)
Definition fresh_preview (w : World) : Prop :=
  forall u, preview (ui w) = Some u -> u < URL.next_url (urls w).

(** The invariant of the reachable worlds. *)
Record Inv (w : World) : Prop := mkInv {
  inv_fresh : fresh_preview w;
  inv_file : preview (ui w) = None <-> selectedFile (ui w) = None;
  inv_busy : isAnalyzing (ui w) = true ->
             results (ui w) = None /\ error (ui w) = None;
  inv_log : URL.revoke_log (urls w) = [];
  inv_live : forall u, u ∈ URL.live (urls w) <-> u < URL.next_url (urls w);
  inv_created : URL.next_url (urls w) = length (calls w);
  inv_pending : forall id r, pending w !! id = Some r -> calls w !! id = Some r
}.

(** The additional invariant of the runs in which no selection overlaps
    a request in flight. *)
Definition Sequential (w : World) : Prop :=
  (results (ui w) = None \/ error (ui w) = None)
  /\ (pending w = ∅
      \/ exists id r, pending w = {[ id := r ]}
                     /\ results (ui w) = None /\ error (ui w) = None).

(** ** Further parts of the markup and of the runs *)

(** The icon in the header of the result box:
    [results.condition === 'Healthy' ? <leaf path> : <bars path>]. *)
Inductive Icon : Type := LeafIcon | BarsIcon.

Definition result_icon (r : Results) : Icon :=
  if strict_eq_str (condition r) "Healthy" then LeafIcon else BarsIcon.

Definition is_drag (ev : Event) : bool :=
  match ev with
  | Drag _ => true
  | _ => false
  end.

(** A run with its drag-enter, drag-over and drag-leave events left out. *)
Fixpoint without_drags (tr : list Event) : list Event :=
  match tr with
  | [] => []
  | ev :: tr' => if is_drag ev then without_drags tr' else ev :: without_drags tr'
  end.

(** The spinner is on exactly while some request is in flight. *)
Definition Tracking (w : World) : Prop :=
  isAnalyzing (ui w) = true <-> pending w <> ∅.

(** Everything the component ever stores or sends is of the expected
    shape. *)
Record WellFormed (w : World) : Prop := mkWellFormed {
  wf_error : forall e, error (ui w) = Some e -> e = failure_message;
  wf_confidence : forall r, results (ui w) = Some r -> confidence r = 98%Z;
  wf_file : forall f, selectedFile (ui w) = Some f -> is_image f = true;
  wf_calls : forall i r, calls w !! i = Some r ->
             req_preview r = i /\ exists f, req_file r = Some f /\ is_image f = true
}.

(** An event that replaces or clears the file and the preview: an accepted
    selection or a reset. *)
Definition disturbs (ev : Event) : bool :=
  match selection ev with
  | Some _ => true
  | None => match ev with ResetClick => true | _ => false end
  end.

(** No event of [tr] selects a file or resets. *)
Fixpoint undisturbed (tr : list Event) : bool :=
  match tr with
  | [] => true
  | ev :: tr' => negb (disturbs ev) && undisturbed tr'
  end.

(** Sample inputs. *)
Definition leafA : File := mkFile "a.jpg" "image/jpeg" 1000.
Definition leafB : File := mkFile "b.png" "image/png" 2000.
Definition notes : File := mkFile "notes.pdf" "application/pdf" 300.

Definition body (p : string) : jsval := JObj [("prediction", JStr p)].

(** * Basic facts about the handlers *)

Section Handlers.

Implicit Types (w : World) (s : State) (f : File) (t : Transport).

Lemma handleFileChange_accepted files w :
  handleFileChange files w =
  match accepted files with
  | Some f => processSelectedFile f w
  | None => w
  end.
Proof.
  unfold handleFileChange, accepted.
  destruct (files !! 0%nat) as [f|]; [destruct (is_image f)|]; reflexivity.
Qed.

Lemma handleDrop_accepted files w :
  handleDrop files w =
  match accepted files with
  | Some f => processSelectedFile f (with_ui (setDragActive false) w)
  | None => with_ui (setDragActive false) w
  end.
Proof.
  unfold handleDrop, accepted.
  destruct (files !! 0%nat) as [f|]; [destruct (is_image f)|]; reflexivity.
Qed.

Lemma after_render_same s w :
  preview s = preview (ui w) -> selectedFile s = selectedFile (ui w) ->
  after_render s w = w.
Proof.
  intros Hp Hf. unfold after_render, deps_changed.
  rewrite bool_decide_eq_true_2 by (split; assumption). reflexivity.
Qed.

Lemma after_render_no_preview s w :
  preview (ui w) = None -> after_render s w = w.
Proof.
  intros Hp. unfold after_render, effect. rewrite Hp.
  destruct (deps_changed s (ui w)); reflexivity.
Qed.

Lemma analyzeImage_resume_frame t s :
  selectedFile (analyzeImage_resume t s) = selectedFile s
  /\ preview (analyzeImage_resume t s) = preview s
  /\ dragActive (analyzeImage_resume t s) = dragActive s
  /\ isAnalyzing (analyzeImage_resume t s) = false.
Proof.
  unfold analyzeImage_resume, try_block.
  destruct (axios t) as [r|e]; simpl; [|tauto].
  destruct (status r =? 200)%Z; simpl; [|tauto].
  destruct (member (data r) "prediction"); simpl; tauto.
Qed.

(** The slots a settled request writes, in terms of [writes]. *)
Lemma analyzeImage_resume_slots t s :
  results (analyzeImage_resume t s) =
    match fst (writes t) with Some r => Some r | None => results s end
  /\ error (analyzeImage_resume t s) =
    match snd (writes t) with Some e => Some e | None => error s end.
Proof.
  unfold analyzeImage_resume, writes, try_block.
  destruct (axios t) as [r|e]; simpl; [|tauto].
  destruct (status r =? 200)%Z; simpl; [|tauto].
  destruct (member (data r) "prediction"); simpl; tauto.
Qed.

Lemma fire_drag k w :
  fire (Drag k) w =
  with_ui (setDragActive (match k with DragLeave => false | _ => true end)) w.
Proof.
  unfold fire. destruct k; simpl; apply after_render_same; reflexivity.
Qed.

Lemma fire_reset w : fire ResetClick w = resetAnalysis w.
Proof. unfold fire. simpl. apply after_render_no_preview. reflexivity. Qed.

Lemma fire_settle id t w r :
  pending w !! id = Some r ->
  fire (Settle id t) w =
  mkWorld (analyzeImage_resume t (ui w)) (urls w) (calls w) (delete id (pending w)).
Proof.
  intros Hr. unfold fire. simpl. rewrite Hr.
  destruct (analyzeImage_resume_frame t (ui w)) as (Hf & Hp & _).
  apply after_render_same; symmetry; [exact Hp | exact Hf].
Qed.

Lemma fire_settle_unknown id t w :
  pending w !! id = None -> fire (Settle id t) w = w.
Proof.
  intros Hr. unfold fire. simpl. rewrite Hr. apply after_render_same; reflexivity.
Qed.

Lemma fire_rejected_picker files w :
  accepted files = None -> fire (FileChange files) w = w.
Proof.
  intros Ha. unfold fire. simpl. rewrite handleFileChange_accepted, Ha.
  apply after_render_same; reflexivity.
Qed.

Lemma fire_rejected_drop files w :
  accepted files = None ->
  fire (Drop files) w = with_ui (setDragActive false) w.
Proof.
  intros Ha. unfold fire. simpl. rewrite handleDrop_accepted, Ha.
  apply after_render_same; reflexivity.
Qed.

Lemma fire_accepted_picker files f w :
  fresh_preview w -> accepted files = Some f ->
  fire (FileChange files) w = selected f w.
Proof.
  intros Hfresh Ha. unfold fire. simpl. rewrite handleFileChange_accepted, Ha.
  unfold after_render, deps_changed, processSelectedFile. simpl.
  rewrite bool_decide_eq_false_2; [reflexivity|].
  intros [Hp _]. apply Hfresh in Hp. lia.
Qed.

Lemma fire_accepted_drop files f w :
  fresh_preview w -> accepted files = Some f ->
  fire (Drop files) w = selected f (with_ui (setDragActive false) w).
Proof.
  intros Hfresh Ha. unfold fire. simpl. rewrite handleDrop_accepted, Ha.
  unfold after_render, deps_changed, processSelectedFile. simpl.
  rewrite bool_decide_eq_false_2; [reflexivity|].
  intros [Hp _]. apply Hfresh in Hp. lia.
Qed.

End Handlers.

(** * Invariants of the reachable worlds *)

Section Invariants.

Implicit Types (w : World) (ev : Event) (tr : list Event).

Lemma Inv_init : Inv init.
Proof.
  constructor; simpl; try tauto; try discriminate.
  intros u. rewrite elem_of_empty. lia.
Qed.

Lemma Inv_drag_flag b w : Inv w -> Inv (with_ui (setDragActive b) w).
Proof. intros [H1 H2 H3 H4 H5 H6 H7]. constructor; assumption. Qed.

Lemma Inv_selected f w : Inv w -> Inv (selected f w).
Proof.
  intros [H1 H2 H3 H4 H5 H6 H7]. constructor; simpl.
  - intros u Hu. injection Hu as <-. simpl. lia.
  - split; discriminate.
  - intros _. split; reflexivity.
  - assumption.
  - intros u. rewrite elem_of_union, elem_of_singleton, H5. lia.
  - rewrite length_app. simpl. lia.
  - intros id r. rewrite lookup_insert_Some. intros [[<- <-]|[_ Hr]].
    + apply list_lookup_middle. reflexivity.
    + apply lookup_app_l_Some, H7, Hr.
Qed.

Lemma Inv_reset w : Inv w -> Inv (resetAnalysis w).
Proof.
  intros [H1 H2 H3 H4 H5 H6 H7]. constructor; simpl; try assumption; try tauto.
  intros u Hu. discriminate.
Qed.

Lemma Inv_settled id t w :
  Inv w ->
  Inv (mkWorld (analyzeImage_resume t (ui w)) (urls w) (calls w)
               (delete id (pending w))).
Proof.
  intros [H1 H2 H3 H4 H5 H6 H7].
  destruct (analyzeImage_resume_frame t (ui w)) as (Hf & Hp & _ & Hb).
  constructor; cbn [ui urls calls pending]; try assumption.
  - intros u. cbn [ui urls]. rewrite Hp. apply H1.
  - rewrite Hf, Hp. assumption.
  - rewrite Hb. discriminate.
  - intros i r. rewrite lookup_delete_Some. intros [_ Hr]. apply H7, Hr.
Qed.

Lemma Inv_fire ev w : Inv w -> Inv (fire ev w).
Proof.
  intros HI. destruct ev as [files|k|files| |id t].
  - destruct (accepted files) as [f|] eqn:Ha.
    + rewrite (fire_accepted_picker files f) by (try apply HI; assumption).
      apply Inv_selected, HI.
    + rewrite fire_rejected_picker by assumption. assumption.
  - rewrite fire_drag. apply Inv_drag_flag, HI.
  - destruct (accepted files) as [f|] eqn:Ha.
    + rewrite (fire_accepted_drop files f) by (try apply HI; assumption).
      apply Inv_selected, Inv_drag_flag, HI.
    + rewrite fire_rejected_drop by assumption. apply Inv_drag_flag, HI.
  - rewrite fire_reset. apply Inv_reset, HI.
  - destruct (pending w !! id) as [r|] eqn:Hr.
    + rewrite (fire_settle id t w r) by assumption. apply Inv_settled, HI.
    + rewrite fire_settle_unknown by assumption. assumption.
Qed.

Lemma run_cons w ev tr w' :
  run w (ev :: tr) = Some w' <->
  enabled ev w = true /\ run (fire ev w) tr = Some w'.
Proof.
  simpl. unfold step. destruct (enabled ev w); split.
  - intros H. split; [reflexivity | assumption].
  - intros [_ H]. assumption.
  - discriminate.
  - intros [H _]. discriminate.
Qed.

Lemma Inv_run tr : forall w w', Inv w -> run w tr = Some w' -> Inv w'.
Proof.
  induction tr as [|ev tr IH]; intros w w' HI Hrun.
  - simpl in Hrun. injection Hrun as <-. assumption.
  - apply run_cons in Hrun as [_ Hrun].
    apply (IH (fire ev w)); [apply Inv_fire, HI | assumption].
Qed.

Lemma Inv_reachable w : Reachable w -> Inv w.
Proof. intros [tr Hrun]. apply (Inv_run tr init); [apply Inv_init | assumption]. Qed.

(** A settled request writes at most one of the two slots. *)
Lemma writes_exclusive t : fst (writes t) = None \/ snd (writes t) = None.
Proof.
  unfold writes. destruct (try_block t initial_state); simpl; tauto.
Qed.

Lemma fails_throws t s :
  fails t = true -> exists e, try_block t s = Throw e.
Proof.
  unfold fails, try_block.
  destruct (axios t) as [r|e]; simpl; [|intros _; exists e; reflexivity].
  destruct (status r =? 200)%Z; simpl; [|discriminate].
  destruct (member (data r) "prediction") as [p|e]; simpl; [discriminate|].
  intros _. exists e. reflexivity.
Qed.

Lemma Sequential_init : Sequential init.
Proof. split; left; reflexivity. Qed.

Lemma Sequential_fire ev w :
  Inv w -> Sequential w -> enabled ev w = true ->
  (is_Some (selection ev) -> pending w = ∅) ->
  Sequential (fire ev w).
Proof.
  intros HI [Hone Hpend] Hen Hsel.
  assert (Hselected : forall f w0, pending w0 = ∅ -> Sequential (selected f w0)).
  { intros f w0 H0. split; simpl; [left; reflexivity|].
    right. eexists _, _. rewrite H0, insert_empty. repeat split; reflexivity. }
  destruct ev as [files|k|files| |id t].
  - destruct (accepted files) as [f|] eqn:Ha.
    + rewrite (fire_accepted_picker files f) by (try apply HI; assumption).
      apply Hselected, Hsel. simpl. rewrite Ha. eauto.
    + rewrite fire_rejected_picker by assumption. split; assumption.
  - rewrite fire_drag. split; assumption.
  - destruct (accepted files) as [f|] eqn:Ha.
    + rewrite (fire_accepted_drop files f) by (try apply HI; assumption).
      apply Hselected. simpl. apply Hsel. simpl. rewrite Ha. eauto.
    + rewrite fire_rejected_drop by assumption. split; assumption.
  - rewrite fire_reset. split; simpl; [left; reflexivity|].
    destruct Hpend as [H0|(id & r & _ & Hr & He)]; [left; assumption|].
    simpl in Hen. apply bool_decide_eq_true in Hen.
    rewrite Hr, He in Hen. destruct Hen as [[? ?]|[? ?]]; discriminate.
  - simpl in Hen. apply bool_decide_eq_true in Hen. destruct Hen as [r Hr].
    rewrite (fire_settle id t w r) by assumption.
    destruct (analyzeImage_resume_slots t (ui w)) as [Hres Herr].
    destruct Hpend as [H0|(id' & r' & Hp & Hr0 & He0)].
    { rewrite H0, lookup_empty in Hr. discriminate. }
    rewrite Hp in Hr. apply lookup_singleton_Some in Hr as [<- <-].
    split; cbn [ui pending].
    + rewrite Hres, Herr, Hr0, He0.
      destruct (writes_exclusive t) as [H|H]; rewrite H; tauto.
    + left. rewrite Hp. apply delete_singleton_eq.
Qed.

Lemma Sequential_run tr : forall w w',
  Inv w -> Sequential w -> run w tr = Some w' -> overlap_free w tr = true ->
  Sequential w'.
Proof.
  induction tr as [|ev tr IH]; intros w w' HI HS Hrun Hfree.
  - simpl in Hrun. injection Hrun as <-. assumption.
  - apply run_cons in Hrun as [Hen Hrun].
    simpl in Hfree. apply andb_true_iff in Hfree as [Hhere Hfree].
    apply (IH (fire ev w)); try assumption; [apply Inv_fire, HI|].
    apply Sequential_fire; try assumption.
    intros Hsel. apply negb_true_iff, andb_false_iff in Hhere as [H|H].
    + apply bool_decide_eq_false in H. contradiction.
    + apply negb_false_iff, bool_decide_eq_true in H. assumption.
Qed.

End Invariants.

(** * Drag indicator and rejected selections *)

Section Acquisition.

Implicit Types (w : World) (files : list File).

Lemma effect_dragActive w : dragActive (ui (effect w)) = dragActive (ui w).
Proof. unfold effect. destruct (preview (ui w)); reflexivity. Qed.

Lemma after_render_dragActive s w :
  dragActive (ui (after_render s w)) = dragActive (ui w).
Proof.
  unfold after_render. destruct (deps_changed s (ui w)); [apply effect_dragActive | reflexivity].
Qed.

(** C9.  The drag indicator is switched on by every drag-enter and
    drag-over event and switched off by every drag-leave and every drop,
    whatever the dropped files are (accepted image, other type, or
    nothing at all) and whatever state the component is in. *)
Theorem drag_indicator_follows_events w :
  dragActive (ui (fire (Drag DragEnter) w)) = true
  /\ dragActive (ui (fire (Drag DragOver) w)) = true
  /\ dragActive (ui (fire (Drag DragLeave) w)) = false
  /\ forall files, dragActive (ui (fire (Drop files) w)) = false.
Proof.
  rewrite !fire_drag. repeat split. intros files.
  unfold fire. rewrite after_render_dragActive. simpl.
  rewrite handleDrop_accepted. destruct (accepted files); reflexivity.
Qed.

(** C7, as stated, fails for drops: a rejected drop still switches the
    drag indicator off, so the component state does change when the
    indicator was on. *)
Lemma rejected_drop_resets_drag_indicator :
  ~ (forall w files,
       Reachable w ->
       files = [] \/ (exists f rest, files = f :: rest /\ is_image f = false) ->
       ui (fire (Drop files) w) = ui w).
Proof.
  intros H.
  specialize (H (fire (Drag DragEnter) init) [notes]).
  apply (f_equal dragActive) in H.
  - discriminate H.
  - exists [Drag DragEnter]. reflexivity.
  - right. exists notes, []. split; reflexivity.
Qed.

Lemma rejected_accepted files :
  files = [] \/ (exists f rest, files = f :: rest /\ is_image f = false) ->
  accepted files = None.
Proof.
  intros [->|(f & rest & -> & Hf)]; [reflexivity|].
  unfold accepted. simpl. rewrite Hf. reflexivity.
Qed.

(** C7, amended.  A selection with no file, or whose first file has a
    type that does not start with [image/], leaves the component state
    unchanged when it comes from the picker; when it comes from a drop,
    the only change is that the drag indicator is switched off.  In both
    cases nothing else moves: no preview is created, no request is
    issued, no error is set. *)
Theorem rejected_selection_keeps_analysis_state w files :
  files = [] \/ (exists f rest, files = f :: rest /\ is_image f = false) ->
  fire (FileChange files) w = w
  /\ fire (Drop files) w = with_ui (setDragActive false) w
  /\ (let s' := ui (fire (Drop files) w) in
      selectedFile s' = selectedFile (ui w)
      /\ preview s' = preview (ui w)
      /\ results s' = results (ui w)
      /\ isAnalyzing s' = isAnalyzing (ui w)
      /\ error s' = error (ui w))
  /\ urls (fire (Drop files) w) = urls w
  /\ calls (fire (Drop files) w) = calls w
  /\ pending (fire (Drop files) w) = pending w.
Proof.
  intros Hrej. apply rejected_accepted in Hrej.
  rewrite fire_rejected_picker, fire_rejected_drop by assumption.
  repeat split.
Qed.

Lemma rejected_selection_keeps_analysis_state_witness :
  ([notes] = [] \/ (exists f rest, [notes] = f :: rest /\ is_image f = false))
  /\ fire (FileChange [notes]) init = init
  /\ fire (Drop [notes]) (fire (Drag DragOver) init) = init.
Proof.
  assert (Hrej : [notes] = [] \/
                 (exists f rest, [notes] = f :: rest /\ is_image f = false)).
  { right. exists notes, []. split; reflexivity. }
  split; [exact Hrej|]. split.
  - exact (proj1 (rejected_selection_keeps_analysis_state init [notes] Hrej)).
  - exact (proj1 (proj2 (rejected_selection_keeps_analysis_state
                           (fire (Drag DragOver) init) [notes] Hrej))).
Defined.

End Acquisition.

(** * Accepted selections *)

Section Selection.

Implicit Types (w : World) (ev : Event) (f : File).

Lemma fire_selection ev f w :
  Inv w -> selection ev = Some f ->
  fire ev w =
  selected f (match ev with Drop _ => with_ui (setDragActive false) w | _ => w end).
Proof.
  intros HI Hsel. destruct ev as [files|k|files| |id t]; try discriminate.
  - apply fire_accepted_picker; [apply HI | assumption].
  - apply fire_accepted_drop; [apply HI | assumption].
Qed.

Lemma handle_selection ev f w :
  selection ev = Some f ->
  handle ev w =
  processSelectedFile f
    (match ev with Drop _ => with_ui (setDragActive false) w | _ => w end).
Proof.
  intros Hsel. destruct ev as [files|k|files| |id t]; try discriminate; simpl in *.
  - rewrite handleFileChange_accepted, Hsel. reflexivity.
  - rewrite handleDrop_accepted, Hsel. reflexivity.
Qed.

Lemma fire_no_selection_calls ev w :
  selection ev = None -> calls (fire ev w) = calls w.
Proof.
  intros Hsel. destruct ev as [files|k|files| |id t]; simpl in Hsel.
  - rewrite fire_rejected_picker by assumption. reflexivity.
  - rewrite fire_drag. reflexivity.
  - rewrite fire_rejected_drop by assumption. reflexivity.
  - rewrite fire_reset. reflexivity.
  - destruct (pending w !! id) as [r|] eqn:Hr.
    + rewrite (fire_settle id t w r) by assumption. reflexivity.
    + rewrite fire_settle_unknown by assumption. reflexivity.
Qed.

Lemma calls_fire ev w :
  Inv w ->
  calls (fire ev w) =
  (calls w ++ match selection ev with
              | Some f => [mkRequest (Some f) (URL.next_url (urls w))]
              | None => []
              end)%list.
Proof.
  intros HI. destruct (selection ev) as [f|] eqn:Hsel.
  - rewrite (fire_selection ev f) by assumption. destruct ev; reflexivity.
  - rewrite fire_no_selection_calls by assumption. symmetry. apply app_nil_r.
Qed.

Lemma calls_run tr : forall w w',
  Inv w -> run w tr = Some w' ->
  map req_file (calls w') =
  (map req_file (calls w) ++ map Some (omap selection tr))%list.
Proof.
  induction tr as [|ev tr IH]; intros w w' HI Hrun.
  - simpl in Hrun. injection Hrun as <-. simpl. symmetry. apply app_nil_r.
  - apply run_cons in Hrun as [_ Hrun].
    rewrite (IH (fire ev w) w') by (try apply Inv_fire; assumption).
    rewrite calls_fire by assumption. rewrite map_app, <- app_assoc. f_equal.
    simpl. destruct (selection ev); reflexivity.
Qed.

(** C8.  In every reachable state, whichever of Idle, Analyzing,
    Succeeded or Failed it shows, an accepted file selection first clears
    the result and the error and records the new file and its new preview
    (the state the handler leaves), and the effect that follows puts the
    component in Analyzing for that file, with a request for it in
    flight. *)
Theorem valid_selection_enters_analyzing w ev f :
  Reachable w -> selection ev = Some f ->
  let u := URL.next_url (urls w) in
  (let s1 := ui (handle ev w) in
   selectedFile s1 = Some f /\ preview s1 = Some u
   /\ results s1 = None /\ error s1 = None)
  /\ (let s2 := ui (fire ev w) in
      Analyzing s2 /\ ~ Succeeded s2 /\ ~ Failed s2
      /\ selectedFile s2 = Some f /\ preview s2 = Some u)
  /\ pending (fire ev w) !! length (calls w) = Some (mkRequest (Some f) u).
Proof.
  intros Hw Hsel u. apply Inv_reachable in Hw.
  rewrite (handle_selection ev f) by assumption.
  rewrite (fire_selection ev f) by assumption.
  split; [|split].
  - destruct ev; repeat split.
  - unfold Analyzing, Succeeded, Failed. simpl.
    repeat split; try (intros [x Hx]; discriminate); destruct ev; reflexivity.
  - simpl. destruct ev; simpl; apply lookup_insert_eq.
Qed.

(** C5.  From every reachable state, also one with earlier requests
    still in flight, an event issues exactly one call of the endpoint when
    it is an accepted selection (carrying the selected file) and none
    otherwise; along a run the sequence of files sent is therefore the
    sequence of accepted selections, one call each. *)
Theorem one_call_per_accepted_selection tr w :
  run init tr = Some w ->
  (forall ev,
     calls (fire ev w) =
     (calls w ++ match selection ev with
                 | Some f => [mkRequest (Some f) (URL.next_url (urls w))]
                 | None => []
                 end)%list)
  /\ map req_file (calls w) = map Some (omap selection tr).
Proof.
  intros Hrun. split.
  - intros ev. apply calls_fire, Inv_reachable. exists tr. assumption.
  - apply (calls_run tr init w Inv_init Hrun).
Qed.

End Selection.

Lemma valid_selection_enters_analyzing_witness :
  Reachable (fire (Drop [leafA]) init)
  /\ selection (Drop [leafB; notes]) = Some leafB
  /\ Analyzing (ui (fire (Drop [leafB; notes]) (fire (Drop [leafA]) init)))
  /\ selectedFile (ui (fire (Drop [leafB; notes]) (fire (Drop [leafA]) init)))
     = Some leafB
  /\ preview (ui (fire (Drop [leafB; notes]) (fire (Drop [leafA]) init))) = Some 1.
Proof.
  assert (Hw : Reachable (fire (Drop [leafA]) init))
    by (exists [Drop [leafA]]; reflexivity).
  split; [exact Hw|]. split; [reflexivity|].
  destruct (valid_selection_enters_analyzing
              (fire (Drop [leafA]) init) (Drop [leafB; notes]) leafB
              Hw eq_refl) as (_ & (Ha & _ & _ & Hf & Hp) & _).
  split; [exact Ha|]. split; [exact Hf | exact Hp].
Defined.

Lemma one_call_per_accepted_selection_witness :
  run init [Drop [leafA]; Drag DragOver; Drop [notes]; Drop [leafB]]
  = Some (fire (Drop [leafB]) (fire (Drop [notes]) (fire (Drag DragOver) (fire (Drop [leafA]) init))))
  /\ map req_file
       (calls (fire (Drop [leafB]) (fire (Drop [notes]) (fire (Drag DragOver) (fire (Drop [leafA]) init)))))
     = [Some leafA; Some leafB].
Proof.
  split; [reflexivity|].
  exact (proj2 (one_call_per_accepted_selection
                  [Drop [leafA]; Drag DragOver; Drop [notes]; Drop [leafB]]
                  _ eq_refl)).
Defined.

(** * Settled requests *)

Section Settling.

Implicit Types (w : World) (ev : Event) (f : File) (t : Transport).

Lemma strict_eq_str_spec (v : jsval) (lit : string) :
  strict_eq_str v lit = true <-> v = JStr lit.
Proof.
  destruct v; simpl; try (split; [discriminate | intros H; discriminate H]).
  rewrite String.eqb_eq. split; [intros ->; reflexivity | intros [= ->]; reflexivity].
Qed.

(** Which outcomes end in the [catch] block: no response, a status
    outside 2xx, or a 200 whose body is [null] or [undefined]. *)
Lemma fails_spec t :
  fails t = true <->
  t = NetworkFailure
  \/ exists s d, t = Reply s d
       /\ (validateStatus s = false \/ (s = 200%Z /\ (d = JUndefined \/ d = JNull))).
Proof.
  unfold fails, try_block. destruct t as [|s d]; simpl.
  - split; [left; reflexivity | reflexivity].
  - destruct (validateStatus s) eqn:Hv; simpl.
    + destruct (s =? 200)%Z eqn:Hs; simpl.
      * apply Z.eqb_eq in Hs.
        destruct d; simpl;
          (split;
           [ try discriminate; intros _; right; exists s; eexists;
             (split; [reflexivity|]); right; (split; [assumption|]); auto
           | intros HH; try reflexivity;
             destruct HH as [H|(s' & d' & Heq & [H|[_ [H|H]]])]; congruence ]).
      * apply Z.eqb_neq in Hs. split; [discriminate|].
        intros [H|(s' & d' & Heq & [H|[H _]])]; congruence.
    + split; [|reflexivity]. intros _. right. exists s, d.
      split; [reflexivity|]. left. assumption.
Qed.

Lemma run_select_settle w ev f t :
  Inv w -> enabled ev w = true -> selection ev = Some f ->
  run w [ev; Settle (length (calls w)) t] =
  Some (let w1 := fire ev w in
        mkWorld (analyzeImage_resume t (ui w1)) (urls w1) (calls w1)
                (delete (length (calls w)) (pending w1))).
Proof.
  intros HI Hen Hsel. simpl. unfold step. rewrite Hen.
  assert (Hr : pending (fire ev w) !! length (calls w)
               = Some (mkRequest (Some f) (URL.next_url (urls w)))).
  { rewrite (fire_selection ev f) by assumption.
    destruct ev; simpl; apply lookup_insert_eq. }
  unfold enabled. rewrite bool_decide_eq_true_2 by (rewrite Hr; eauto).
  rewrite (fire_settle _ t _ _ Hr). reflexivity.
Qed.

Lemma run_settle_one w id r t :
  pending w !! id = Some r ->
  run w [Settle id t] = Some (fire (Settle id t) w).
Proof.
  intros Hr. simpl. unfold step, enabled.
  rewrite bool_decide_eq_true_2 by (rewrite Hr; eauto). reflexivity.
Qed.

(** A single attempt that ends in the [catch] block: the component shows
    the fixed message and keeps the file and the preview of the
    selection. *)
Lemma failed_attempt_shows_message w ev f t :
  Reachable w -> enabled ev w = true -> selection ev = Some f ->
  fails t = true ->
  exists w', run w [ev; Settle (length (calls w)) t] = Some w'
    /\ selectedFile (ui w') = Some f
    /\ preview (ui w') = Some (URL.next_url (urls w))
    /\ results (ui w') = None
    /\ isAnalyzing (ui w') = false
    /\ error (ui w') = Some failure_message.
Proof.
  intros Hw Hen Hsel Hfail. apply Inv_reachable in Hw.
  eexists. split; [apply (run_select_settle w ev f t); assumption|].
  rewrite (fire_selection ev f) by assumption. cbn [ui].
  unfold analyzeImage_resume.
  destruct (fails_throws t (ui (selected f
    (match ev with Drop _ => with_ui (setDragActive false) w | _ => w end))) Hfail)
    as [e He].
  rewrite He. simpl. repeat split. destruct ev; reflexivity.
Qed.

(** A 200 reply whose body is an object without [prediction] takes the
    same path as one with it, reading the condition as [undefined]. *)
Lemma resume_without_prediction props s :
  prop_lookup "prediction" props = None ->
  analyzeImage_resume (Reply 200 (JObj props)) s
  = setIsAnalyzing false (setResults (Some (mkResults JUndefined 98)) s).
Proof.
  intros Hp. unfold analyzeImage_resume, try_block. simpl. rewrite Hp. reflexivity.
Qed.

(** C1 fails on the code for a 200 reply whose body lacks [prediction]:
    the attempt is not treated as a failure; the component stores a
    result whose condition is [undefined] and shows it as a disease, with
    no error. *)
Theorem malformed_body_shown_as_result :
  fails (Reply 200 (JObj [])) = false
  /\ exists w,
      run init [Drop [leafA]; Settle 0 (Reply 200 (JObj []))] = Some w
      /\ results (ui w) = Some (mkResults JUndefined 98)
      /\ error (ui w) = None
      /\ getConditionClass (ui w) = "disease".
Proof.
  split; [reflexivity|]. eexists. split; [reflexivity|]. repeat split.
Qed.

(** A 2xx reply other than 200 writes neither slot: the component is
    left with a preview, no spinner, no result and no error. *)
Lemma other_2xx_shows_placeholder :
  exists w,
    run init [Drop [leafA]; Settle 0 (Reply 204 JNull)] = Some w
    /\ results (ui w) = None /\ error (ui w) = None
    /\ analyzing_placeholder (render (ui w)) = true.
Proof. eexists. split; [reflexivity|]. repeat split. Qed.

Lemma resume_with_prediction props p s :
  prop_lookup "prediction" props = Some p ->
  analyzeImage_resume (Reply 200 (JObj props)) s
  = setIsAnalyzing false (setResults (Some (mkResults p 98)) s).
Proof.
  intros Hp. unfold analyzeImage_resume, try_block. simpl. rewrite Hp. reflexivity.
Qed.

(** C6.  A 200 reply whose body has [prediction] equal to [p] stores the
    result [{condition: p, confidence: 98}] and clears the in-flight flag,
    whatever request in flight it answers; when it answers the request of
    a selection just made, the component is in Succeeded with that result,
    no error and no spinner.  The class of the result box is [healthy]
    exactly when [p] is the string [Healthy]; for every other [p] it is
    [disease] and the details are the fixed disease guidance. *)
Theorem prediction_becomes_result w props p :
  Reachable w ->
  prop_lookup "prediction" props = Some p ->
  let t := Reply 200 (JObj props) in
  (forall id r,
     pending w !! id = Some r ->
     let s' := ui (fire (Settle id t) w) in
     results s' = Some (mkResults p 98)
     /\ isAnalyzing s' = false
     /\ error s' = error (ui w)
     /\ (getConditionClass s' = "healthy" <-> p = JStr "Healthy")
     /\ (p = JStr "Healthy" ->
         results_panel (render s')
         = Some (mkPanel "healthy" p 98 healthy_details))
     /\ (p <> JStr "Healthy" ->
         getConditionClass s' = "disease"
         /\ results_panel (render s')
            = Some (mkPanel "disease" p 98 (disease_details p))))
  /\ (forall ev f,
        enabled ev w = true -> selection ev = Some f ->
        exists w',
          run w [ev; Settle (length (calls w)) t] = Some w'
          /\ ui w' = mkState (Some f) (Some (URL.next_url (urls w)))
                             (Some (mkResults p 98)) false None
                             (dragActive (ui (fire ev w)))).
Proof.
  intros Hw Hp t. apply Inv_reachable in Hw. split.
  - intros id r Hr s'. subst s' t.
    rewrite (fire_settle id _ w r Hr). cbn [ui].
    rewrite (resume_with_prediction props p) by assumption.
    unfold render, getConditionClass, result_details. simpl.
    pose proof (strict_eq_str_spec p "Healthy") as Heq.
    destruct (strict_eq_str p "Healthy"); simpl.
    + repeat split; try tauto. all: intros Hne; exfalso; apply Hne, Heq; reflexivity.
    + repeat split; try discriminate.
      all: intros H; apply Heq in H; discriminate.
  - intros ev f Hen Hsel. eexists.
    split; [apply (run_select_settle w ev f); assumption|].
    rewrite (fire_selection ev f) by assumption. cbn [ui]. subst t.
    rewrite (resume_with_prediction props p) by assumption.
    destruct ev; reflexivity.
Qed.

Lemma fire_undisturbed ev w :
  disturbs ev = false ->
  selectedFile (ui (fire ev w)) = selectedFile (ui w)
  /\ preview (ui (fire ev w)) = preview (ui w).
Proof.
  unfold disturbs. destruct (selection ev) eqn:Hsel; [discriminate|].
  destruct ev as [files|k|files| |id t]; simpl in Hsel; try discriminate; intros _.
  - rewrite fire_rejected_picker by assumption. split; reflexivity.
  - rewrite fire_drag. split; reflexivity.
  - rewrite fire_rejected_drop by assumption. split; reflexivity.
  - destruct (pending w !! id) as [r|] eqn:Hr.
    + rewrite (fire_settle id t w r Hr). cbn [ui].
      destruct (analyzeImage_resume_frame t (ui w)) as (Hf & Hp & _).
      split; assumption.
    + rewrite fire_settle_unknown by assumption. split; reflexivity.
Qed.

Lemma run_undisturbed tr : forall w w',
  undisturbed tr = true -> run w tr = Some w' ->
  selectedFile (ui w') = selectedFile (ui w)
  /\ preview (ui w') = preview (ui w).
Proof.
  induction tr as [|ev tr IH]; intros w w' Hund Hrun.
  - simpl in Hrun. injection Hrun as <-. split; reflexivity.
  - apply run_cons in Hrun as [_ Hrun].
    simpl in Hund. apply andb_true_iff in Hund as [Hev Hund].
    apply negb_true_iff in Hev.
    destruct (IH _ _ Hund Hrun) as [Hf Hp].
    destruct (fire_undisturbed ev w Hev) as [Hf0 Hp0].
    split; congruence.
Qed.

(** C10 fails on the code for a request that was overtaken: when B is
    selected while A's request is in flight and A's request then fails,
    the failed state shows B's preview, not the one that triggered the
    request. *)
Lemma overtaken_failure_shows_newer_preview :
  ~ (forall w id r t,
       Reachable w -> pending w !! id = Some r -> fails t = true ->
       let w' := fire (Settle id t) w in
       selectedFile (ui w') = req_file r
       /\ preview_image (render (ui w')) = Some (req_preview r)).
Proof.
  intros H.
  destruct (H (fire (Drop [leafB]) (fire (Drop [leafA]) init)) 0
              (mkRequest (Some leafA) 0) NetworkFailure) as [_ Hp].
  - exists [Drop [leafA]; Drop [leafB]]. reflexivity.
  - reflexivity.
  - reflexivity.
  - vm_compute in Hp. discriminate Hp.
Qed.

(** C10, amended.  When a request in flight ends in the [catch] block,
    the settlement sets the error to the fixed message and clears the
    in-flight flag, and changes nothing else: file, preview, result, drag
    indicator and the object-URL registry are as before.  When no file
    was selected and no reset happened since the selection that issued
    the request, file and preview are still the ones of that selection,
    so the failed state shows the preview that triggered the request. *)
Theorem failed_request_changes_error_and_flag_only :
  (forall w id r t,
     pending w !! id = Some r -> fails t = true ->
     let w' := fire (Settle id t) w in
     error (ui w') = Some failure_message
     /\ isAnalyzing (ui w') = false
     /\ selectedFile (ui w') = selectedFile (ui w)
     /\ preview (ui w') = preview (ui w)
     /\ results (ui w') = results (ui w)
     /\ dragActive (ui w') = dragActive (ui w)
     /\ urls w' = urls w
     /\ preview_image (render (ui w')) = preview_image (render (ui w)))
  /\ (forall w ev f tr w1 t,
        Reachable w -> enabled ev w = true -> selection ev = Some f ->
        undisturbed tr = true -> run (fire ev w) tr = Some w1 ->
        is_Some (pending w1 !! length (calls w)) ->
        fails t = true ->
        exists w',
          run w1 [Settle (length (calls w)) t] = Some w'
          /\ selectedFile (ui w') = Some f
          /\ preview (ui w') = Some (URL.next_url (urls w))
          /\ preview_image (render (ui w')) = Some (URL.next_url (urls w))
          /\ error (ui w') = Some failure_message
          /\ isAnalyzing (ui w') = false).
Proof.
  assert (Hframe : forall w id r t,
            pending w !! id = Some r -> fails t = true ->
            fire (Settle id t) w
            = mkWorld (setIsAnalyzing false (setError (Some failure_message) (ui w)))
                      (urls w) (calls w) (delete id (pending w))).
  { intros w id r t Hr Hfail. rewrite (fire_settle id t w r Hr).
    destruct (fails_throws t (ui w) Hfail) as [e He].
    unfold analyzeImage_resume. rewrite He. reflexivity. }
  split.
  - intros w id r t Hr Hfail w'. subst w'. rewrite (Hframe w id r t Hr Hfail).
    repeat split.
  - intros w ev f tr w1 t Hw Hen Hsel Hund Hrun [r Hr] Hfail.
    apply Inv_reachable in Hw.
    destruct (run_undisturbed tr _ _ Hund Hrun) as [Hf Hp].
    rewrite (fire_selection ev f w Hw Hsel) in Hf, Hp. simpl in Hf, Hp.
    assert (Hu : preview (ui w1) = Some (URL.next_url (urls w)))
      by (rewrite Hp; destruct ev; reflexivity).
    eexists. split.
    { rewrite (run_settle_one w1 _ r t Hr). reflexivity. }
    rewrite (Hframe w1 _ r t Hr Hfail). simpl. repeat split; assumption.
Qed.

End Settling.

Lemma prediction_becomes_result_witness :
  Reachable init
  /\ prop_lookup "prediction" [("prediction", JStr "Late Blight")]
     = Some (JStr "Late Blight")
  /\ exists w',
      run init [FileChange [leafA]; Settle 0 (Reply 200 (body "Late Blight"))]
      = Some w'
      /\ ui w' = mkState (Some leafA) (Some 0)
                         (Some (mkResults (JStr "Late Blight") 98)) false None false.
Proof.
  assert (Hw : Reachable init) by (exists []; reflexivity).
  split; [exact Hw|]. split; [reflexivity|].
  exact (proj2 (prediction_becomes_result init
                  [("prediction", JStr "Late Blight")] (JStr "Late Blight")
                  Hw eq_refl)
               (FileChange [leafA]) leafA eq_refl eq_refl).
Defined.

Lemma failed_request_changes_error_and_flag_only_witness :
  Reachable init
  /\ enabled (Drop [leafA]) init = true
  /\ selection (Drop [leafA]) = Some leafA
  /\ undisturbed [Drag DragOver; Drop [notes]] = true
  /\ run (fire (Drop [leafA]) init) [Drag DragOver; Drop [notes]]
     = Some (fire (Drop [notes]) (fire (Drag DragOver) (fire (Drop [leafA]) init)))
  /\ fails (Reply 500 JNull) = true
  /\ exists w',
      run (fire (Drop [notes]) (fire (Drag DragOver) (fire (Drop [leafA]) init)))
          [Settle 0 (Reply 500 JNull)] = Some w'
      /\ selectedFile (ui w') = Some leafA
      /\ preview_image (render (ui w')) = Some 0
      /\ error (ui w') = Some failure_message.
Proof.
  assert (Hw : Reachable init) by (exists []; reflexivity).
  split; [exact Hw|]. repeat (split; [reflexivity|]).
  destruct (proj2 failed_request_changes_error_and_flag_only
              init (Drop [leafA]) leafA [Drag DragOver; Drop [notes]]
              (fire (Drop [notes]) (fire (Drag DragOver) (fire (Drop [leafA]) init)))
              (Reply 500 JNull)
              Hw eq_refl eq_refl eq_refl eq_refl
              (ex_intro _ (mkRequest (Some leafA) 0) eq_refl) eq_refl)
    as (w' & Hrun & Hf & _ & Hp & He & _).
  exists w'. split; [exact Hrun|]. split; [exact Hf|]. split; [exact Hp | exact He].
Defined.

(** * Overlapping requests *)

Section Overlap.

Implicit Types (w : World) (ev : Event) (f : File) (t : Transport).

Lemma run_enabled w ev tr :
  enabled ev w = true -> run w (ev :: tr) = run (fire ev w) tr.
Proof. intros Hen. simpl. unfold step. rewrite Hen. reflexivity. Qed.

Lemma run_settle w id r t tr :
  pending w !! id = Some r ->
  run w (Settle id t :: tr) =
  run (mkWorld (analyzeImage_resume t (ui w)) (urls w) (calls w)
               (delete id (pending w))) tr.
Proof.
  intros Hr. rewrite run_enabled.
  - rewrite (fire_settle id t w r Hr). reflexivity.
  - simpl. apply bool_decide_eq_true. rewrite Hr. eauto.
Qed.

(** C2 fails on the code: with A selected first, B second, B's reply
    (Healthy) arriving first and A's reply (Late Blight) last, the
    component ends up showing A's result for B's file. *)
Lemma stale_response_overwrites_newer :
  ~ (forall fA fB tA tB w',
       is_image fA = true -> is_image fB = true ->
       run init [Drop [fA]; Drop [fB]; Settle 1 tB; Settle 0 tA] = Some w' ->
       (results (ui w'), error (ui w')) = writes tB).
Proof.
  intros H.
  specialize (H leafA leafB (Reply 200 (body "Late Blight"))
                (Reply 200 (body "Healthy")) _ eq_refl eq_refl eq_refl).
  vm_compute in H. discriminate H.
Qed.

(** C2, amended.  When B is selected while A's request is in flight and
    A's request settles after B's, the component keeps B's file and
    preview and is no longer analyzing, and the result and error slots
    hold what the two settlements wrote in the order they arrived: the
    slot A's late response writes (the result for a 200 reply, the error
    for a failure) holds A's value, and B's outcome survives only in the
    slot A's response did not write. *)
Theorem last_settled_response_wins w evA filesB fA fB tA tB :
  Reachable w -> enabled evA w = true ->
  selection evA = Some fA -> accepted filesB = Some fB ->
  exists w',
    run w [evA; Drop filesB;
           Settle (S (length (calls w))) tB; Settle (length (calls w)) tA]
    = Some w'
    /\ selectedFile (ui w') = Some fB
    /\ preview (ui w') = Some (S (URL.next_url (urls w)))
    /\ isAnalyzing (ui w') = false
    /\ results (ui w') =
       match fst (writes tA) with Some r => Some r | None => fst (writes tB) end
    /\ error (ui w') =
       match snd (writes tA) with Some e => Some e | None => snd (writes tB) end.
Proof.
  intros Hw HenA HselA HselB. apply Inv_reachable in Hw.
  pose proof (Inv_fire evA w Hw) as HI1.
  pose proof (fire_selection evA fA w Hw HselA) as E1.
  pose proof (fire_accepted_drop filesB fB (fire evA w) (inv_fresh _ HI1) HselB) as E2.
  set (w1 := fire evA w) in *. set (w2 := fire (Drop filesB) w1) in *.
  assert (Hlen1 : length (calls w1) = S (length (calls w))).
  { rewrite E1. destruct evA; simpl; rewrite length_app; simpl; lia. }
  assert (Hurl1 : URL.next_url (urls w1) = S (URL.next_url (urls w))).
  { rewrite E1. destruct evA; reflexivity. }
  assert (HpB : pending w2 !! S (length (calls w))
                = Some (mkRequest (Some fB) (URL.next_url (urls w1)))).
  { rewrite E2. simpl. rewrite Hlen1. apply lookup_insert_eq. }
  assert (HpA : pending w2 !! length (calls w)
                = Some (mkRequest (Some fA) (URL.next_url (urls w)))).
  { rewrite E2. simpl. rewrite Hlen1, lookup_insert_ne by lia.
    rewrite E1. destruct evA; simpl; apply lookup_insert_eq. }
  eexists. split.
  { rewrite run_enabled by assumption. fold w1.
    rewrite run_enabled by reflexivity. fold w2.
    rewrite (run_settle w2 _ _ tB _ HpB).
    rewrite (run_settle _ (length (calls w))
               (mkRequest (Some fA) (URL.next_url (urls w))) tA).
    - reflexivity.
    - cbn [pending]. rewrite lookup_delete_ne by lia. exact HpA. }
  cbn [ui].
  destruct (analyzeImage_resume_frame tA (analyzeImage_resume tB (ui w2)))
    as (HfA & HpvA & _ & HbA).
  destruct (analyzeImage_resume_frame tB (ui w2)) as (HfB & HpvB & _ & _).
  destruct (analyzeImage_resume_slots tA (analyzeImage_resume tB (ui w2)))
    as (HrA & HeA).
  destruct (analyzeImage_resume_slots tB (ui w2)) as (HrB & HeB).
  rewrite HfA, HfB, HpvA, HpvB, HbA, HrA, HeA, HrB, HeB.
  rewrite E2. simpl. rewrite Hurl1.
  repeat split; destruct (writes tB) as [[rb|] [eb|]]; reflexivity.
Qed.

(** C3 fails on the code: after two overlapping selections, one request
    answered with a prediction and the other one failing, a result and an
    error are shown together. *)
Lemma result_and_error_coexist :
  ~ (forall w, Reachable w ->
       active_count (ui w) <= 1
       /\ (Idle (ui w) -> selectedFile (ui w) = None)).
Proof.
  intros H.
  destruct (H (fire (Settle 1 NetworkFailure)
                 (fire (Settle 0 (Reply 200 (body "Healthy")))
                    (fire (Drop [leafB]) (fire (Drop [leafA]) init))))) as [Hc _].
  - exists [Drop [leafA]; Drop [leafB];
            Settle 0 (Reply 200 (body "Healthy")); Settle 1 NetworkFailure].
    reflexivity.
  - vm_compute in Hc. lia.
Qed.

Lemma active_count_bound (s : State) :
  (isAnalyzing s = true -> results s = None /\ error s = None) ->
  results s = None \/ error s = None ->
  active_count s <= 1.
Proof.
  unfold active_count. intros Hbusy Hone.
  destruct (isAnalyzing s).
  - destruct Hbusy as [-> ->]; [reflexivity | simpl; lia].
  - destruct Hone as [-> | ->]; simpl;
      [destruct (bool_decide (is_Some (error s)))
      |destruct (bool_decide (is_Some (results s)))]; simpl; lia.
Qed.

(** C3, amended.  In every reachable state the in-flight flag is never
    on together with a result or an error, and the component is Idle (no
    preview) exactly when no file is selected.  A result and an error are
    never present together, so that at most one of the three is on, in
    every run in which no file is selected while an earlier request is
    still in flight. *)
Theorem ui_states_exclusive_without_overlap tr w :
  run init tr = Some w ->
  (Analyzing (ui w) -> ~ Succeeded (ui w) /\ ~ Failed (ui w))
  /\ (Idle (ui w) <-> selectedFile (ui w) = None)
  /\ (overlap_free init tr = true -> active_count (ui w) <= 1).
Proof.
  intros Hrun.
  assert (HI : Inv w) by (apply Inv_reachable; exists tr; assumption).
  split; [|split].
  - intros Hb. destruct (inv_busy w HI Hb) as [Hr He].
    unfold Succeeded, Failed. rewrite Hr, He.
    split; intros [x Hx]; discriminate.
  - apply (inv_file w HI).
  - intros Hfree.
    destruct (Sequential_run tr init w Inv_init Sequential_init Hrun Hfree)
      as [Hone _].
    apply active_count_bound; [apply (inv_busy w HI) | assumption].
Qed.

End Overlap.

Lemma last_settled_response_wins_witness :
  Reachable init
  /\ enabled (Drop [leafA]) init = true
  /\ selection (Drop [leafA]) = Some leafA
  /\ accepted [leafB] = Some leafB
  /\ exists w',
      run init [Drop [leafA]; Drop [leafB];
                Settle 1 NetworkFailure; Settle 0 (Reply 200 (body "Early Blight"))]
      = Some w'
      /\ selectedFile (ui w') = Some leafB
      /\ results (ui w') = Some (mkResults (JStr "Early Blight") 98)
      /\ error (ui w') = Some failure_message.
Proof.
  assert (Hw : Reachable init) by (exists []; reflexivity).
  split; [exact Hw|]. repeat (split; [reflexivity|]).
  destruct (last_settled_response_wins init (Drop [leafA]) [leafB] leafA leafB
              (Reply 200 (body "Early Blight")) NetworkFailure
              Hw eq_refl eq_refl eq_refl)
    as (w' & Hrun & Hf & _ & _ & Hr & He).
  exists w'. split; [exact Hrun|]. split; [exact Hf|].
  split; [exact Hr | exact He].
Defined.

Lemma ui_states_exclusive_without_overlap_witness :
  run init [Drop [leafA]; Settle 0 NetworkFailure; ResetClick; FileChange [leafB]]
  = Some (fire (FileChange [leafB])
            (fire ResetClick (fire (Settle 0 NetworkFailure) (fire (Drop [leafA]) init))))
  /\ overlap_free init
       [Drop [leafA]; Settle 0 NetworkFailure; ResetClick; FileChange [leafB]] = true
  /\ active_count
       (ui (fire (FileChange [leafB])
              (fire ResetClick (fire (Settle 0 NetworkFailure) (fire (Drop [leafA]) init)))))
     <= 1.
Proof.
  split; [reflexivity|]. split; [reflexivity|].
  exact (proj2 (proj2 (ui_states_exclusive_without_overlap
                         [Drop [leafA]; Settle 0 NetworkFailure; ResetClick;
                          FileChange [leafB]] _ eq_refl)) eq_refl).
Defined.

(** * Preview handles *)

Section Previews.

Implicit Types (w : World) (ev : Event) (f : File) (u : ObjectURL).

(** C4 fails on the code: after a selection, a successful analysis and a
    reset, the handle of the preview has not been released. *)
Lemma reset_releases_nothing :
  ~ (forall w u,
       Reachable w -> Succeeded (ui w) \/ Failed (ui w) ->
       preview (ui w) = Some u ->
       count_occ Nat.eq_dec (URL.revoke_log (urls (fire ResetClick w))) u = 1
       /\ u ∉ URL.live (urls (fire ResetClick w))).
Proof.
  intros H.
  destruct (H (fire (Settle 0 (Reply 200 (body "Healthy")))
                 (fire (Drop [leafA]) init)) 0) as [Hc _].
  - exists [Drop [leafA]; Settle 0 (Reply 200 (body "Healthy"))]. reflexivity.
  - left. eexists. reflexivity.
  - reflexivity.
  - vm_compute in Hc. discriminate Hc.
Qed.

(** C4, amended.  The component never releases a preview handle.  In
    every reachable state the release log is empty and every handle
    created so far is still live.  Calling reset from Succeeded or Failed
    returns to Idle (file, preview, result and error cleared, not
    analyzing) and leaves the registry of handles untouched; an accepted
    selection creates exactly one new handle and the handle it supersedes
    stays live. *)
Theorem preview_handles_never_released w :
  Reachable w ->
  (URL.revoke_log (urls w) = []
   /\ forall u, u < URL.next_url (urls w) -> u ∈ URL.live (urls w))
  /\ (Succeeded (ui w) \/ Failed (ui w) ->
      ui (fire ResetClick w) = setDragActive (dragActive (ui w)) initial_state
      /\ urls (fire ResetClick w) = urls w)
  /\ (forall ev f,
        selection ev = Some f ->
        preview (ui (fire ev w)) = Some (URL.next_url (urls w))
        /\ URL.next_url (urls (fire ev w)) = S (URL.next_url (urls w))
        /\ URL.revoke_log (urls (fire ev w)) = []
        /\ forall u, preview (ui w) = Some u ->
                     u <> URL.next_url (urls w)
                     /\ u ∈ URL.live (urls (fire ev w))).
Proof.
  intros Hw. apply Inv_reachable in Hw. split; [|split].
  - split; [apply (inv_log w Hw) | intros u Hu; apply (inv_live w Hw), Hu].
  - intros Hdone. rewrite fire_reset. split; [|reflexivity].
    assert (Hb : isAnalyzing (ui w) = false).
    { destruct (isAnalyzing (ui w)) eqn:Hb; [|reflexivity].
      destruct (inv_busy w Hw Hb) as [Hr He].
      unfold Succeeded, Failed in Hdone. rewrite Hr, He in Hdone.
      destruct Hdone as [[x Hx]|[x Hx]]; discriminate. }
    unfold resetAnalysis, with_ui, setDragActive, initial_state, setError, setResults, setPreview, setSelectedFile. simpl.
    rewrite Hb. reflexivity.
  - intros ev f Hsel.
    pose proof (Inv_fire ev w Hw) as HI'.
    rewrite (fire_selection ev f w Hw Hsel) in *.
    repeat split.
    + destruct ev; reflexivity.
    + destruct ev; reflexivity.
    + apply (inv_log _ HI').
    + apply (inv_fresh w Hw) in H. lia.
    + apply (inv_live _ HI'). apply (inv_fresh w Hw) in H.
      destruct ev; simpl; lia.
Qed.

End Previews.

Lemma preview_handles_never_released_witness :
  Reachable (fire (Settle 0 NetworkFailure) (fire (Drop [leafA]) init))
  /\ Failed (ui (fire (Settle 0 NetworkFailure) (fire (Drop [leafA]) init)))
  /\ ui (fire ResetClick (fire (Settle 0 NetworkFailure) (fire (Drop [leafA]) init)))
     = initial_state
  /\ URL.revoke_log
       (urls (fire ResetClick (fire (Settle 0 NetworkFailure) (fire (Drop [leafA]) init))))
     = [].
Proof.
  assert (Hw : Reachable (fire (Settle 0 NetworkFailure) (fire (Drop [leafA]) init)))
    by (exists [Drop [leafA]; Settle 0 NetworkFailure]; reflexivity).
  assert (Hf : Failed (ui (fire (Settle 0 NetworkFailure) (fire (Drop [leafA]) init))))
    by (eexists; reflexivity).
  split; [exact Hw|]. split; [exact Hf|].
  destruct (preview_handles_never_released _ Hw) as ((Hlog & _) & Hreset & _).
  destruct (Hreset (or_intror Hf)) as (Hui & Hurls).
  split; [exact Hui|]. rewrite Hurls. exact Hlog.
Defined.


(** * Further properties of the handlers *)

Section Acceptance.

Implicit Types (w : World) (f : File) (files : list File).

Lemma is_image_spec f :
  is_image f = true <-> exists suffix, file_type f = "image/" ++ suffix.
Proof.
  unfold is_image. split.
  - intros H. destruct (file_type f) as [|c1 [|c2 [|c3 [|c4 [|c5 [|c6 rest]]]]]];
      simpl in H;
      repeat match type of H with
             | (if ?d then _ else _) = true => destruct d as [<-|]; [|discriminate H]
             end;
      try discriminate H.
    exists rest. reflexivity.
  - intros [suffix ->]. destruct suffix; reflexivity.
Qed.

(** X1.  The picker and the drop handler hand a selection to
    [processSelectedFile] exactly when it has a first file whose type is
    [image/] followed by anything, and then they hand over that first
    file; otherwise the picker handler does nothing and the drop handler
    only switches the indicator off.  A preview is created in the first
    case and only there.  Name and size of the file play no role, and the
    files after the first one are never looked at. *)
Theorem first_file_decides_acceptance files w :
  (forall f rest suffix,
     files = f :: rest -> file_type f = "image/" ++ suffix ->
     handleFileChange files w = processSelectedFile f w
     /\ handleDrop files w = processSelectedFile f (with_ui (setDragActive false) w))
  /\ (~ (exists f rest suffix, files = f :: rest /\ file_type f = "image/" ++ suffix) ->
      handleFileChange files w = w
      /\ handleDrop files w = with_ui (setDragActive false) w)
  /\ (URL.next_url (urls (handleFileChange files w)) <> URL.next_url (urls w)
      <-> exists f rest suffix, files = f :: rest /\ file_type f = "image/" ++ suffix)
  /\ (URL.next_url (urls (handleDrop files w)) <> URL.next_url (urls w)
      <-> exists f rest suffix, files = f :: rest /\ file_type f = "image/" ++ suffix)
  /\ (forall g rest,
        files = g :: rest ->
        fire (Drop files) w = fire (Drop [g]) w
        /\ fire (FileChange files) w = fire (FileChange [g]) w).
Proof.
  unfold handleFileChange, handleDrop.
  destruct files as [|g rest0]; simpl.
  - repeat split; try discriminate.
    + intros H. contradiction H. reflexivity.
    + intros (f & rest & suffix & H & _). discriminate H.
    + intros H. contradiction H. reflexivity.
    + intros (f & rest & suffix & H & _). discriminate H.
  - destruct (is_image g) eqn:Hg.
    + pose proof Hg as Himg. apply is_image_spec in Himg as [sfx Hs].
      split; [|split; [|split; [|split]]].
      * intros f rest suffix [= <- <-] _. split; reflexivity.
      * intros Hno. contradiction Hno. exists g, rest0, sfx. split; [reflexivity | assumption].
      * split; [|unfold processSelectedFile; simpl; lia].
        intros _. exists g, rest0, sfx. split; [reflexivity | assumption].
      * split; [|unfold processSelectedFile; simpl; lia].
        intros _. exists g, rest0, sfx. split; [reflexivity | assumption].
      * intros g' rest [= <- <-]. split; reflexivity.
    + assert (Hnot : ~ (exists f rest suffix,
                          g :: rest0 = f :: rest /\ file_type f = "image/" ++ suffix)).
      { intros (f & rest & suffix & [= <- <-] & Hs).
        assert (Hf : is_image g = true) by (apply is_image_spec; eauto).
        congruence. }
      split; [|split; [|split; [|split]]].
      * intros f rest suffix [= <- <-] Hs. contradiction Hnot. eauto 6.
      * intros _. split; reflexivity.
      * split; [intros H; contradiction H; reflexivity | intros H; contradiction (Hnot H)].
      * split; [intros H; contradiction H; reflexivity | intros H; contradiction (Hnot H)].
      * intros g' rest [= <- <-]. split; reflexivity.
Qed.

End Acceptance.

Lemma first_file_decides_acceptance_witness :
  handleFileChange [leafB; notes] init = processSelectedFile leafB init
  /\ handleDrop [notes; leafB] init = with_ui (setDragActive false) init.
Proof.
  split.
  - exact (proj1 (proj1 (first_file_decides_acceptance [leafB; notes] init)
                    leafB [notes] "png" eq_refl eq_refl)).
  - apply (proj1 (proj2 (first_file_decides_acceptance [notes; leafB] init))).
    intros (f & rest & suffix & Hfiles & Htype).
    injection Hfiles as <- _. discriminate Htype.
Defined.

Section Outcomes.

Implicit Types (w : World) (ev : Event) (f : File) (t : Transport) (s : State).

(** X2.  What the settled call does to the state, by cases on what the
    transport delivered: no response, a status outside 200..299, or a 200
    whose body is [null] or [undefined] store the fixed message; a 200 with
    any other body stores its [prediction] (or [undefined]) with confidence
    98; every other 2xx status stores nothing.  In all cases the in-flight
    flag is cleared and nothing else is written. *)
Theorem settled_call_cases t s :
  match t with
  | NetworkFailure =>
      analyzeImage_resume t s = setIsAnalyzing false (setError (Some failure_message) s)
  | Reply st d =>
      if negb ((200 <=? st) && (st <? 300))%Z then
        analyzeImage_resume t s = setIsAnalyzing false (setError (Some failure_message) s)
      else if negb (st =? 200)%Z then
        analyzeImage_resume t s = setIsAnalyzing false s
      else
        match d with
        | JUndefined | JNull =>
            analyzeImage_resume t s
            = setIsAnalyzing false (setError (Some failure_message) s)
        | JObj props =>
            analyzeImage_resume t s
            = setIsAnalyzing false
                (setResults (Some (mkResults (default JUndefined (prop_lookup "prediction" props)) 98)) s)
        | _ =>
            analyzeImage_resume t s
            = setIsAnalyzing false (setResults (Some (mkResults JUndefined 98)) s)
        end
  end.
Proof.
  destruct t as [|st d]; [reflexivity|].
  unfold analyzeImage_resume, try_block, axios, validateStatus.
  destruct ((200 <=? st) && (st <? 300))%Z; simpl; [|reflexivity].
  destruct (st =? 200)%Z; simpl; [|reflexivity].
  destruct d; reflexivity.
Qed.

(** X3.  After a selection, a reply with a 2xx status other than 200
    leaves the component with the file and its preview but with no
    spinner, no result and no error: the page shows the placeholder, there
    is no reset button to press, and no request is in flight any more. *)
Theorem other_2xx_leaves_placeholder w ev f st d :
  Reachable w -> enabled ev w = true -> selection ev = Some f ->
  (200 < st < 300)%Z ->
  exists w',
    run w [ev; Settle (length (calls w)) (Reply st d)] = Some w'
    /\ ui w' = mkState (Some f) (Some (URL.next_url (urls w))) None false None
                       (dragActive (ui (fire ev w)))
    /\ analyzing_placeholder (render (ui w')) = true
    /\ enabled ResetClick w' = false
    /\ pending w' !! length (calls w) = None.
Proof.
  intros Hw Hen Hsel Hst. apply Inv_reachable in Hw.
  eexists. split; [apply (run_select_settle w ev f); assumption|].
  rewrite (fire_selection ev f) by assumption. cbn [ui pending].
  pose proof (settled_call_cases (Reply st d)) as Hc. cbn beta iota in Hc.
  replace ((200 <=? st) && (st <? 300))%Z with true in Hc by lia.
  replace (st =? 200)%Z with false in Hc by lia. simpl in Hc. rewrite Hc.
  repeat split.
  - destruct ev; reflexivity.
  - apply lookup_delete_eq.
Qed.

End Outcomes.

Lemma other_2xx_leaves_placeholder_witness :
  Reachable init
  /\ enabled (Drop [leafA]) init = true
  /\ selection (Drop [leafA]) = Some leafA
  /\ (200 < 204 < 300)%Z
  /\ exists w',
      run init [Drop [leafA]; Settle 0 (Reply 204 JNull)] = Some w'
      /\ ui w' = mkState (Some leafA) (Some 0) None false None false
      /\ enabled ResetClick w' = false.
Proof.
  assert (Hw : Reachable init) by (exists []; reflexivity).
  assert (Hst : (200 < 204 < 300)%Z) by lia.
  split; [exact Hw|]. split; [reflexivity|]. split; [reflexivity|].
  split; [exact Hst|].
  destruct (other_2xx_leaves_placeholder init (Drop [leafA]) leafA 204 JNull
              Hw eq_refl eq_refl Hst) as (w' & Hrun & Hui & _ & Hreset & _).
  exists w'. split; [exact Hrun|]. split; [exact Hui | exact Hreset].
Defined.

(** * Further properties of the runs *)

Section Runs.

Implicit Types (w : World) (ev : Event) (f : File) (t : Transport) (s : State).

Lemma writes_shape t :
  (forall r, fst (writes t) = Some r -> confidence r = 98%Z)
  /\ (forall e, snd (writes t) = Some e -> e = failure_message).
Proof.
  unfold writes, try_block.
  destruct (axios t) as [resp|e0]; simpl;
    [|split; [discriminate | intros e [= <-]; reflexivity]].
  destruct (status resp =? 200)%Z; simpl; [|split; discriminate].
  destruct (member (data resp) "prediction"); simpl.
  - split; [intros r [= <-]; reflexivity | discriminate].
  - split; [discriminate | intros e1 [= <-]; reflexivity].
Qed.

Lemma accepted_is_image files f : accepted files = Some f -> is_image f = true.
Proof.
  unfold accepted. destruct (files !! 0%nat) as [g|]; [|discriminate].
  destruct (is_image g) eqn:Hg; [|discriminate]. intros [= <-]. assumption.
Qed.

Lemma selection_is_image ev f : selection ev = Some f -> is_image f = true.
Proof.
  destruct ev; simpl; try discriminate; apply accepted_is_image.
Qed.

Lemma WellFormed_init : WellFormed init.
Proof. constructor; simpl; discriminate. Qed.

Lemma WellFormed_fire ev w : Inv w -> WellFormed w -> WellFormed (fire ev w).
Proof.
  intros HI [He Hc Hf Hcalls].
  destruct (selection ev) as [f|] eqn:Hsel.
  - rewrite (fire_selection ev f w HI Hsel).
    pose proof (selection_is_image ev f Hsel) as Himg.
    assert (Hnext : URL.next_url (urls (match ev with
                      | Drop _ => with_ui (setDragActive false) w | _ => w end))
                    = length (calls w))
      by (destruct ev; apply (inv_created w HI)).
    constructor; simpl; try discriminate.
    + intros g [= <-]. assumption.
    + intros i r Hr.
      replace (calls (match ev with
                 | Drop _ => with_ui (setDragActive false) w | _ => w end))
        with (calls w) in Hr by (destruct ev; reflexivity).
      apply lookup_app_Some in Hr as [Hr|[Hlen Hr]]; [apply Hcalls, Hr|].
      destruct (i - length (calls w)) as [|n] eqn:Hi; [|destruct n; discriminate Hr].
      injection Hr as <-. simpl. split; [lia | eauto].
  - destruct ev as [files|k|files| |id t]; simpl in Hsel.
    + rewrite fire_rejected_picker by assumption. constructor; assumption.
    + rewrite fire_drag. constructor; assumption.
    + rewrite fire_rejected_drop by assumption. constructor; assumption.
    + rewrite fire_reset. constructor; simpl; try discriminate. assumption.
    + destruct (pending w !! id) as [r|] eqn:Hr;
        [|rewrite fire_settle_unknown by assumption; constructor; assumption].
      rewrite (fire_settle id t w r Hr).
      destruct (analyzeImage_resume_slots t (ui w)) as [Hres Herr].
      destruct (analyzeImage_resume_frame t (ui w)) as (Hfile & _).
      destruct (writes_shape t) as [Hw1 Hw2].
      constructor; cbn [ui calls].
      * intros e. rewrite Herr. destruct (snd (writes t)) as [e'|].
        -- intros [= <-]. apply Hw2. reflexivity.
        -- apply He.
      * intros r0. rewrite Hres. destruct (fst (writes t)) as [r'|].
        -- intros [= <-]. apply Hw1. reflexivity.
        -- apply Hc.
      * intros g. rewrite Hfile. apply Hf.
      * assumption.
Qed.

Lemma WellFormed_run tr : forall w w',
  Inv w -> WellFormed w -> run w tr = Some w' -> WellFormed w'.
Proof.
  induction tr as [|ev tr IH]; intros w w' HI HW Hrun.
  - simpl in Hrun. injection Hrun as <-. assumption.
  - apply run_cons in Hrun as [_ Hrun].
    apply (IH (fire ev w)); [apply Inv_fire, HI | apply WellFormed_fire; assumption | assumption].
Qed.

(** X4.  Whatever the replies were, an error the component shows is the
    fixed message and a result it shows has confidence 98: neither the
    status nor the cause of a failure ever reaches the state. *)
Theorem shown_error_and_confidence_are_fixed tr w :
  run init tr = Some w ->
  (forall e, error (ui w) = Some e -> e = failure_message)
  /\ (forall r, results (ui w) = Some r -> confidence r = 98%Z).
Proof.
  intros Hrun.
  destruct (WellFormed_run tr init w Inv_init WellFormed_init Hrun) as [He Hc _ _].
  split; assumption.
Qed.

(** X5.  The selected file is always an image, and so is the file of
    every call ever issued: no call is made without a file or with a file
    of another type.  The [i]-th call was issued for the [i]-th preview
    created, there are as many previews as calls, and every request in
    flight is one of the calls. *)
Theorem calls_carry_selected_images tr w :
  run init tr = Some w ->
  (forall f, selectedFile (ui w) = Some f -> is_image f = true)
  /\ (forall i r, calls w !! i = Some r ->
        req_preview r = i /\ exists f, req_file r = Some f /\ is_image f = true)
  /\ URL.next_url (urls w) = length (calls w)
  /\ (forall id r, pending w !! id = Some r -> calls w !! id = Some r).
Proof.
  intros Hrun.
  destruct (WellFormed_run tr init w Inv_init WellFormed_init Hrun) as [_ _ Hf Hcalls].
  assert (HI : Inv w) by (apply (Inv_run tr init); [apply Inv_init | assumption]).
  split; [assumption|]. split; [assumption|].
  split; [apply (inv_created w HI) | apply (inv_pending w HI)].
Qed.

Lemma Tracking_init : Tracking init.
Proof. unfold Tracking. simpl. split; [discriminate | intros H; contradiction H; reflexivity]. Qed.

Lemma Tracking_fire ev w :
  Inv w -> Sequential w -> Tracking w -> enabled ev w = true ->
  (is_Some (selection ev) -> pending w = ∅) ->
  Tracking (fire ev w).
Proof.
  intros HI [_ Hpend] HT Hen Hsel. unfold Tracking in *.
  destruct (selection ev) as [f|] eqn:Hs.
  - rewrite (fire_selection ev f w HI Hs). simpl.
    split; [intros _; apply insert_non_empty | reflexivity].
  - destruct ev as [files|k|files| |id t]; simpl in Hs.
    + rewrite fire_rejected_picker by assumption. assumption.
    + rewrite fire_drag. assumption.
    + rewrite fire_rejected_drop by assumption. assumption.
    + rewrite fire_reset. assumption.
    + simpl in Hen. apply bool_decide_eq_true in Hen. destruct Hen as [r Hr].
      rewrite (fire_settle id t w r Hr). cbn [ui pending].
      destruct (analyzeImage_resume_frame t (ui w)) as (_ & _ & _ & Hb).
      rewrite Hb.
      destruct Hpend as [H0|(id' & r' & Hp & _)].
      { rewrite H0, lookup_empty in Hr. discriminate. }
      rewrite Hp in Hr. apply lookup_singleton_Some in Hr as [<- <-].
      rewrite Hp, delete_singleton_eq.
      split; [discriminate | intros H; contradiction H; reflexivity].
Qed.

Lemma Tracking_run tr : forall w w',
  Inv w -> Sequential w -> Tracking w ->
  run w tr = Some w' -> overlap_free w tr = true ->
  Tracking w'.
Proof.
  induction tr as [|ev tr IH]; intros w w' HI HS HT Hrun Hfree.
  - simpl in Hrun. injection Hrun as <-. assumption.
  - apply run_cons in Hrun as [Hen Hrun].
    simpl in Hfree. apply andb_true_iff in Hfree as [Hhere Hfree].
    assert (Hsel : is_Some (selection ev) -> pending w = ∅).
    { intros Hsel. apply negb_true_iff, andb_false_iff in Hhere as [H|H].
      - apply bool_decide_eq_false in H. contradiction.
      - apply negb_false_iff, bool_decide_eq_true in H. assumption. }
    apply (IH (fire ev w)); try assumption.
    + apply Inv_fire, HI.
    + apply Sequential_fire; assumption.
    + apply Tracking_fire; assumption.
Qed.

(** X6.  In a run in which no file is selected while an earlier request
    is still in flight, the spinner is on exactly while a request is in
    flight. *)
Theorem spinner_tracks_request_without_overlap tr w :
  run init tr = Some w -> overlap_free init tr = true ->
  (isAnalyzing (ui w) = true <-> pending w <> ∅).
Proof.
  intros Hrun Hfree.
  apply (Tracking_run tr init w Inv_init Sequential_init Tracking_init Hrun Hfree).
Qed.

(** X7.  When B is selected while A's request is in flight and A's
    request settles first, the spinner goes off although B's request is
    still in flight, and what A's reply wrote (its result or the failure
    message) is shown next to B's file and preview. *)
Theorem overtaken_reply_shown_for_new_file w evA filesB fA fB tA :
  Reachable w -> enabled evA w = true ->
  selection evA = Some fA -> accepted filesB = Some fB ->
  exists w',
    run w [evA; Drop filesB; Settle (length (calls w)) tA] = Some w'
    /\ selectedFile (ui w') = Some fB
    /\ preview (ui w') = Some (S (URL.next_url (urls w)))
    /\ isAnalyzing (ui w') = false
    /\ pending w' !! S (length (calls w))
       = Some (mkRequest (Some fB) (S (URL.next_url (urls w))))
    /\ results (ui w') = fst (writes tA)
    /\ error (ui w') = snd (writes tA).
Proof.
  intros Hw HenA HselA HselB. apply Inv_reachable in Hw.
  pose proof (Inv_fire evA w Hw) as HI1.
  pose proof (fire_selection evA fA w Hw HselA) as E1.
  pose proof (fire_accepted_drop filesB fB (fire evA w) (inv_fresh _ HI1) HselB) as E2.
  set (w1 := fire evA w) in *. set (w2 := fire (Drop filesB) w1) in *.
  assert (Hlen1 : length (calls w1) = S (length (calls w))).
  { rewrite E1. destruct evA; simpl; rewrite length_app; simpl; lia. }
  assert (Hurl1 : URL.next_url (urls w1) = S (URL.next_url (urls w))).
  { rewrite E1. destruct evA; reflexivity. }
  assert (HpB : pending w2 !! S (length (calls w))
                = Some (mkRequest (Some fB) (S (URL.next_url (urls w))))).
  { rewrite E2. simpl. rewrite Hlen1, Hurl1. apply lookup_insert_eq. }
  assert (HpA : pending w2 !! length (calls w)
                = Some (mkRequest (Some fA) (URL.next_url (urls w)))).
  { rewrite E2. simpl. rewrite Hlen1, lookup_insert_ne by lia.
    rewrite E1. destruct evA; simpl; apply lookup_insert_eq. }
  eexists. split.
  { rewrite run_enabled by assumption. fold w1.
    rewrite run_enabled by reflexivity. fold w2.
    rewrite (run_settle w2 _ _ tA _ HpA). reflexivity. }
  cbn [ui pending].
  destruct (analyzeImage_resume_frame tA (ui w2)) as (Hf & Hpv & _ & Hb).
  destruct (analyzeImage_resume_slots tA (ui w2)) as (Hr & He).
  rewrite Hf, Hpv, Hb, Hr, He, lookup_delete_ne by lia.
  rewrite HpB, E2. simpl. rewrite Hurl1.
  repeat split; destruct (writes tA) as [[ra|] [ea|]]; reflexivity.
Qed.

(** X8.  Reset cancels nothing: the requests in flight stay in flight,
    and when one of them settles afterwards, what its reply writes appears
    in a component that has no file and no preview, so that a result or an
    error is shown together with the upload prompt. *)
Theorem reset_does_not_cancel w id r t :
  pending w !! id = Some r ->
  pending (fire ResetClick w) = pending w
  /\ calls (fire ResetClick w) = calls w
  /\ (let w' := fire (Settle id t) (fire ResetClick w) in
      selectedFile (ui w') = None
      /\ preview (ui w') = None
      /\ upload_prompt (render (ui w')) = true
      /\ results (ui w') = fst (writes t)
      /\ error_message (render (ui w')) = snd (writes t)).
Proof.
  intros Hr. rewrite fire_reset. split; [reflexivity|]. split; [reflexivity|].
  rewrite (fire_settle id t (resetAnalysis w) r Hr). cbn [ui].
  destruct (analyzeImage_resume_frame t (ui (resetAnalysis w))) as (Hf & Hpv & _).
  destruct (analyzeImage_resume_slots t (ui (resetAnalysis w))) as (Hres & Herr).
  unfold render. cbn [upload_prompt error_message].
  rewrite Hf, Hpv, Hres, Herr. simpl.
  repeat split; destruct (writes t) as [[r0|] [e0|]]; reflexivity.
Qed.

End Runs.

Lemma shown_error_and_confidence_are_fixed_witness :
  run init [Drop [leafA]; Settle 0 (Reply 503 (JStr "Service Unavailable"))]
  = Some (fire (Settle 0 (Reply 503 (JStr "Service Unavailable")))
            (fire (Drop [leafA]) init))
  /\ error (ui (fire (Settle 0 (Reply 503 (JStr "Service Unavailable")))
                  (fire (Drop [leafA]) init)))
     = Some failure_message.
Proof.
  split; [reflexivity|].
  destruct (shown_error_and_confidence_are_fixed
              [Drop [leafA]; Settle 0 (Reply 503 (JStr "Service Unavailable"))]
              _ eq_refl) as [He _].
  destruct (error (ui (fire (Settle 0 (Reply 503 (JStr "Service Unavailable")))
                         (fire (Drop [leafA]) init)))) as [e|] eqn:Heq.
  - f_equal. apply He. reflexivity.
  - discriminate Heq.
Defined.

Lemma calls_carry_selected_images_witness :
  run init [Drop [leafA; notes]; Drop [notes; leafB]; Drop [leafB]]
  = Some (fire (Drop [leafB]) (fire (Drop [notes; leafB]) (fire (Drop [leafA; notes]) init)))
  /\ URL.next_url
       (urls (fire (Drop [leafB]) (fire (Drop [notes; leafB]) (fire (Drop [leafA; notes]) init))))
     = length
         (calls (fire (Drop [leafB]) (fire (Drop [notes; leafB]) (fire (Drop [leafA; notes]) init)))).
Proof.
  split; [reflexivity|].
  exact (proj1 (proj2 (proj2 (calls_carry_selected_images
                                [Drop [leafA; notes]; Drop [notes; leafB]; Drop [leafB]]
                                _ eq_refl)))).
Defined.

Lemma spinner_tracks_request_without_overlap_witness :
  run init [Drag DragEnter; Drop [leafA]]
  = Some (fire (Drop [leafA]) (fire (Drag DragEnter) init))
  /\ overlap_free init [Drag DragEnter; Drop [leafA]] = true
  /\ (isAnalyzing (ui (fire (Drop [leafA]) (fire (Drag DragEnter) init))) = true
      <-> pending (fire (Drop [leafA]) (fire (Drag DragEnter) init)) <> ∅).
Proof.
  split; [reflexivity|]. split; [reflexivity|].
  exact (spinner_tracks_request_without_overlap
           [Drag DragEnter; Drop [leafA]] _ eq_refl eq_refl).
Defined.

Lemma overtaken_reply_shown_for_new_file_witness :
  Reachable init
  /\ enabled (FileChange [leafA]) init = true
  /\ selection (FileChange [leafA]) = Some leafA
  /\ accepted [leafB] = Some leafB
  /\ exists w',
      run init [FileChange [leafA]; Drop [leafB]; Settle 0 (Reply 200 (body "Healthy"))]
      = Some w'
      /\ selectedFile (ui w') = Some leafB
      /\ isAnalyzing (ui w') = false
      /\ results (ui w') = Some (mkResults (JStr "Healthy") 98).
Proof.
  assert (Hw : Reachable init) by (exists []; reflexivity).
  split; [exact Hw|]. repeat (split; [reflexivity|]).
  destruct (overtaken_reply_shown_for_new_file init (FileChange [leafA]) [leafB]
              leafA leafB (Reply 200 (body "Healthy")) Hw eq_refl eq_refl eq_refl)
    as (w' & Hrun & Hf & _ & Hb & _ & Hr & _).
  exists w'. split; [exact Hrun|]. split; [exact Hf|]. split; [exact Hb | exact Hr].
Defined.

Lemma reset_does_not_cancel_witness :
  enabled ResetClick
    (fire (Settle 0 NetworkFailure) (fire (Drop [leafB]) (fire (Drop [leafA]) init)))
  = true
  /\ pending (fire (Settle 0 NetworkFailure) (fire (Drop [leafB]) (fire (Drop [leafA]) init)))
     !! 1%nat = Some (mkRequest (Some leafB) 1)
  /\ results
       (ui (fire (Settle 1 (Reply 200 (body "Healthy")))
              (fire ResetClick
                 (fire (Settle 0 NetworkFailure)
                    (fire (Drop [leafB]) (fire (Drop [leafA]) init))))))
     = Some (mkResults (JStr "Healthy") 98)
  /\ preview
       (ui (fire (Settle 1 (Reply 200 (body "Healthy")))
              (fire ResetClick
                 (fire (Settle 0 NetworkFailure)
                    (fire (Drop [leafB]) (fire (Drop [leafA]) init))))))
     = None.
Proof.
  assert (Hr : pending (fire (Settle 0 NetworkFailure)
                          (fire (Drop [leafB]) (fire (Drop [leafA]) init)))
               !! 1%nat = Some (mkRequest (Some leafB) 1)) by reflexivity.
  split; [reflexivity|]. split; [exact Hr|].
  destruct (reset_does_not_cancel _ 1 _ (Reply 200 (body "Healthy")) Hr)
    as (_ & _ & _ & Hp & _ & Hres & _).
  split; [exact Hres | exact Hp].
Defined.

(** * The drag indicator is cosmetic *)

Section DragEvents.

Implicit Types (w : World) (ev : Event) (tr : list Event) (b : bool).

Lemma resume_dragActive t b (s : State) :
  analyzeImage_resume t (setDragActive b s)
  = setDragActive b (analyzeImage_resume t s).
Proof.
  unfold analyzeImage_resume, try_block.
  destruct (axios t) as [resp|e]; simpl; [|reflexivity].
  destruct (status resp =? 200)%Z; simpl; [|reflexivity].
  destruct (member (data resp) "prediction"); reflexivity.
Qed.

Lemma enabled_flag ev w b :
  enabled ev (with_ui (setDragActive b) w) = enabled ev w.
Proof. destruct ev; reflexivity. Qed.

Lemma flag_twice b b' w :
  with_ui (setDragActive b') (with_ui (setDragActive b) w)
  = with_ui (setDragActive b') w.
Proof. reflexivity. Qed.

(** Firing an event commutes with setting the indicator, up to the value
    the indicator ends with. *)
Lemma fire_flag ev w b :
  Inv w ->
  exists b', fire ev (with_ui (setDragActive b) w)
             = with_ui (setDragActive b') (fire ev w).
Proof.
  intros HI. pose proof (Inv_drag_flag b w HI) as HIb.
  destruct (selection ev) as [f|] eqn:Hsel.
  - rewrite (fire_selection ev f _ HIb Hsel), (fire_selection ev f w HI Hsel).
    destruct ev; try discriminate; eexists; reflexivity.
  - destruct ev as [files|k|files| |id t]; simpl in Hsel.
    + exists b. rewrite !fire_rejected_picker by assumption. reflexivity.
    + eexists. rewrite !fire_drag. rewrite flag_twice. symmetry. apply flag_twice.
    + exists false. rewrite !fire_rejected_drop by assumption. reflexivity.
    + exists b. rewrite !fire_reset. reflexivity.
    + exists b. destruct (pending w !! id) as [r|] eqn:Hr.
      * rewrite (fire_settle id t (with_ui (setDragActive b) w) r Hr).
        rewrite (fire_settle id t w r Hr).
        unfold with_ui. cbn [ui urls calls pending].
        rewrite resume_dragActive. reflexivity.
      * rewrite !fire_settle_unknown by assumption. reflexivity.
Qed.

Lemma run_flag tr : forall w b w',
  Inv w -> run (with_ui (setDragActive b) w) tr = Some w' ->
  exists w0 b', run w (without_drags tr) = Some w0
                /\ w' = with_ui (setDragActive b') w0.
Proof.
  induction tr as [|ev tr IH]; intros w b w' HI Hrun.
  - simpl in Hrun. injection Hrun as <-. exists w, b. split; reflexivity.
  - apply run_cons in Hrun as [Hen Hrun].
    destruct (fire_flag ev w b HI) as [b1 Hb1]. rewrite Hb1 in Hrun.
    rewrite enabled_flag in Hen.
    destruct ev as [files|k|files| |id t]; cbn [without_drags is_drag].
    2: { rewrite fire_drag, flag_twice in Hrun. apply (IH w b1 w' HI Hrun). }
    all: destruct (IH _ b1 w' (Inv_fire _ w HI) Hrun) as (w0 & b' & Hrun0 & Hw');
      exists w0, b'; (split; [|assumption]);
      rewrite run_enabled by assumption; assumption.
Qed.

(** X9.  Drag-enter, drag-over and drag-leave events matter for the
    indicator only: a run with these events removed is still a run of the
    component, and it ends in the same world (same file, preview, result,
    error, in-flight flag, calls and requests in flight) except possibly
    for the indicator. *)
Theorem drag_events_do_not_interfere tr w :
  run init tr = Some w ->
  exists w0,
    run init (without_drags tr) = Some w0
    /\ w = with_ui (setDragActive (dragActive (ui w))) w0.
Proof.
  intros Hrun.
  destruct (run_flag tr init false w Inv_init Hrun) as (w0 & b' & Hrun0 & ->).
  exists w0. split; [assumption | reflexivity].
Qed.

End DragEvents.

Lemma drag_events_do_not_interfere_witness :
  run init [Drag DragEnter; Drag DragOver; Drop [leafA]; Drag DragLeave;
            Settle 0 NetworkFailure]
  = Some (fire (Settle 0 NetworkFailure)
            (fire (Drag DragLeave)
               (fire (Drop [leafA]) (fire (Drag DragOver) (fire (Drag DragEnter) init)))))
  /\ exists w0,
      run init [Drop [leafA]; Settle 0 NetworkFailure] = Some w0
      /\ fire (Settle 0 NetworkFailure)
           (fire (Drag DragLeave)
              (fire (Drop [leafA]) (fire (Drag DragOver) (fire (Drag DragEnter) init))))
         = with_ui (setDragActive false) w0.
Proof.
  split; [reflexivity|].
  exact (drag_events_do_not_interfere
           [Drag DragEnter; Drag DragOver; Drop [leafA]; Drag DragLeave;
            Settle 0 NetworkFailure] _ eq_refl).
Defined.

(** * Further properties of the markup *)

Section Markup.

Implicit Types (w : World) (ev : Event) (f : File) (s : State) (r : Results).

(** X10.  The class of the result box, the icon of its header and its
    details are chosen alike: the healthy class, the leaf icon and the
    maintenance tips appear together, exactly for the condition [Healthy],
    and the disease class, the bars icon and the disease guidance appear
    together for every other condition.  The class is empty exactly when
    there is no result. *)
Theorem presentation_branches_agree s :
  (getConditionClass s = "" <-> results s = None)
  /\ forall r,
      results s = Some r ->
      (condition r = JStr "Healthy"
       /\ getConditionClass s = "healthy"
       /\ result_icon r = LeafIcon
       /\ result_details r = healthy_details)
      \/ (condition r <> JStr "Healthy"
          /\ getConditionClass s = "disease"
          /\ result_icon r = BarsIcon
          /\ result_details r = disease_details (condition r)).
Proof.
  unfold getConditionClass, result_icon, result_details. split.
  - destruct (results s) as [r|]; [|split; reflexivity].
    destruct (strict_eq_str (condition r) "Healthy"); split; discriminate.
  - intros r ->. pose proof (strict_eq_str_spec (condition r) "Healthy") as Heq.
    destruct (strict_eq_str (condition r) "Healthy"); simpl.
    + left. repeat split. apply Heq. reflexivity.
    + right. repeat split. intros H. apply Heq in H. discriminate.
Qed.

(** X11.  In the render between an accepted selection and the effect
    that follows it, the page shows the new preview and neither the upload
    prompt, nor a result, nor an error; it shows the placeholder unless the
    spinner of an earlier request is still on. *)
Theorem placeholder_before_effect w ev f :
  selection ev = Some f ->
  let v := render (ui (handle ev w)) in
  preview_image v = Some (URL.next_url (urls w))
  /\ upload_prompt v = false
  /\ analyzing_placeholder v = negb (isAnalyzing (ui w))
  /\ analyzing_spinner v = isAnalyzing (ui w)
  /\ error_message v = None
  /\ results_panel v = None.
Proof.
  intros Hsel v. subst v. rewrite (handle_selection ev f w Hsel).
  destruct ev; try discriminate; unfold render; simpl;
    destruct (isAnalyzing (ui w)); repeat split.
Qed.

End Markup.

Lemma presentation_branches_agree_witness :
  results (mkState (Some leafA) (Some 0) (Some (mkResults (JStr "healthy") 98))
                   false None false)
  = Some (mkResults (JStr "healthy") 98)
  /\ result_icon (mkResults (JStr "healthy") 98) = BarsIcon.
Proof.
  split; [reflexivity|].
  destruct (proj2 (presentation_branches_agree
                     (mkState (Some leafA) (Some 0)
                              (Some (mkResults (JStr "healthy") 98)) false None false))
                  (mkResults (JStr "healthy") 98) eq_refl)
    as [(Hc & _)|(_ & _ & Hi & _)].
  - discriminate Hc.
  - exact Hi.
Defined.

Lemma placeholder_before_effect_witness :
  selection (FileChange [leafA]) = Some leafA
  /\ analyzing_placeholder (render (ui (handle (FileChange [leafA]) init))) = true
  /\ preview_image (render (ui (handle (FileChange [leafA]) init))) = Some 0.
Proof.
  split; [reflexivity|].
  destruct (placeholder_before_effect init (FileChange [leafA]) leafA eq_refl)
    as (Hp & _ & Hph & _).
  split; [exact Hph | exact Hp].
Defined.
